(** * Night Sky Perceptions: the motion model of [Main.py], verified.

    The Python program keeps its coordinates, depth and speed multiplier in
    floating-point numbers.  They are idealised here as exact rationals [Q]:
    the properties below rest on comparisons, [max]/[min], truncation, the
    assignment of literals and the monotonicity of the arithmetic, not on
    how a float rounds.  Python integers are [Z] (pixel data) or [nat]
    (ids, counts).
    Calls to the [random] module are answered by an explicit oracle: each
    function takes the values the generator returned as an argument. *)

From Stdlib Require Import QArith Qminmax Qround ZArith List String Bool Lia Lqa.
Import ListNotations.

Local Open Scope Q_scope.

(** ** Module constants *)

Definition WIDTH : Z := 1000.
Definition HEIGHT : Z := 700.

Definition MAX_OBJECTS : nat := 7.
Definition MAX_PER_TYPE : nat := 4.

(** The three module globals that [main] rebinds ([global VIEW_MODE,
    DIRECTION, SPEED_MULTIPLIER]) and the methods read. *)
Record Globals : Type := mkGlobals {
  VIEW_MODE : string;
  DIRECTION : string;
  SPEED_MULTIPLIER : Q
}.

Definition initial_globals : Globals :=
  {| VIEW_MODE := "PLAN"; DIRECTION := "EAST"; SPEED_MULTIPLIER := 1 |}.

(** ** Object catalogue *)

(** The keys of the [OBJECT_TYPES] dictionary, in insertion order. *)
Inductive otype : Type := Plane | Helicopter | Satellite | Meteor | Rare.

Definition OBJECT_TYPES_keys : list otype :=
  [Plane; Helicopter; Satellite; Meteor; Rare].

Definition color : Type := (Z * Z * Z)%type.

Definition OBJECT_TYPES_color (t : otype) : color :=
  match t with
  | Plane => (255, 0, 0)
  | Helicopter => (0, 0, 255)
  | Satellite => (255, 255, 255)
  | Meteor => (255, 255, 150)
  | Rare => (150, 0, 150)
  end%Z.

Definition OBJECT_TYPES_prob (t : otype) : Z :=
  match t with
  | Plane => 30
  | Helicopter => 20
  | Satellite => 20
  | Meteor => 20
  | Rare => 10
  end%Z.

Definition otype_eqb (a b : otype) : bool :=
  match a, b with
  | Plane, Plane | Helicopter, Helicopter | Satellite, Satellite
  | Meteor, Meteor | Rare, Rare => true
  | _, _ => false
  end.

Inductive movement : Type := normal | hover_zip | rare | orbit | shooting_star.

Definition MOVEMENT_TYPES : list movement :=
  [normal; hover_zip; rare; orbit; shooting_star].

Definition MOVEMENT_DIST : list Z := [35; 25; 10; 15; 15]%Z.

(** ** SkyObject *)

Record SkyObject : Type := mkSkyObject {
  id : nat;
  otype_of : otype;
  base_color : color;
  x : Q;
  y : Q;
  z : Q;
  trail : list (Q * Q);
  speed : Q;
  movement_of : movement;
  vx : Q;
  vy : Q
}.

(** What the random module returned during one run of [__init__], in call
    order: the three [uniform] draws for the position, the speed, the
    weighted choice of a movement, and the cosine and sine of the drawn
    angle. *)
Record init_draws : Type := mkInitDraws {
  draw_x : Q;
  draw_y : Q;
  draw_z : Q;
  draw_speed : Q;
  draw_movement : movement;
  draw_cos : Q;
  draw_sin : Q
}.

(** [SkyObject.__init__(self, oid, otype)] *)
Definition SkyObject_init (oid : nat) (ot : otype) (r : init_draws) : SkyObject :=
  {| id := oid;
     otype_of := ot;
     base_color := OBJECT_TYPES_color ot;
     x := draw_x r;
     y := draw_y r;
     z := draw_z r;
     trail := [];
     speed := draw_speed r;
     movement_of := draw_movement r;
     vx := draw_cos r * draw_speed r;
     vy := draw_sin r * draw_speed r |}.

(** Field assignments [self.f = v]. *)
Definition set_x (v : Q) (o : SkyObject) : SkyObject :=
  mkSkyObject (id o) (otype_of o) (base_color o) v (y o) (z o) (trail o)
              (speed o) (movement_of o) (vx o) (vy o).
Definition set_y (v : Q) (o : SkyObject) : SkyObject :=
  mkSkyObject (id o) (otype_of o) (base_color o) (x o) v (z o) (trail o)
              (speed o) (movement_of o) (vx o) (vy o).
Definition set_z (v : Q) (o : SkyObject) : SkyObject :=
  mkSkyObject (id o) (otype_of o) (base_color o) (x o) (y o) v (trail o)
              (speed o) (movement_of o) (vx o) (vy o).
Definition set_trail (v : list (Q * Q)) (o : SkyObject) : SkyObject :=
  mkSkyObject (id o) (otype_of o) (base_color o) (x o) (y o) (z o) v
              (speed o) (movement_of o) (vx o) (vy o).

(** Python's [a < b] on numbers, as a boolean. *)
Definition Qltb (a b : Q) : bool :=
  match a ?= b with Lt => true | _ => false end.

(** [list.pop(0)] on a non-empty list, keeping the rest. *)
Definition pop0 {A : Type} (l : list A) : list A := tl l.

(** [SkyObject.update(self)]; [dz] is the value of
    [random.uniform(-0.2, 0.2)].  One [let] per statement of the method.
    [Qmax a b] returns [b] only when [a < b] and [Qmin a b] returns [b] only
    when [b < a], which is what Python's [max(a, b)] and [min(a, b)] do. *)
Definition update (G : Globals) (dz : Q) (self : SkyObject) : SkyObject :=
  let self := set_x (x self + vx self * SPEED_MULTIPLIER G) self in
  let self := set_y (y self + vy self * SPEED_MULTIPLIER G) self in
  let self := set_z (Qmax 0 (Qmin 100 (z self + dz))) self in
  let self := set_trail (trail self ++ [(x self, y self)]) self in
  let self := if (10 <? List.length (trail self))%nat
              then set_trail (pop0 (trail self)) self else self in
  let self := if Qltb (x self) 0 then set_x (inject_Z WIDTH) self else self in
  let self := if Qltb (inject_Z WIDTH) (x self) then set_x 0 self else self in
  let self := if Qltb (y self) 0 then set_y (inject_Z HEIGHT) self else self in
  let self := if Qltb (inject_Z HEIGHT) (y self) then set_y 0 self else self in
  self.

(** A run of [update] calls; each call sees the globals of its frame and
    its own random draw. *)
Definition updates (calls : list (Globals * Q)) (o : SkyObject) : SkyObject :=
  fold_left (fun o c => update (fst c) (snd c) o) calls o.

(** ** Drawing *)

(** Python's [int(q)]: truncation towards zero. *)
Definition int (q : Q) : Z := Z.quot (Qnum q) (Zpos (Qden q)).

(** The calls issued to pygame. *)
Inductive draw_call : Type :=
| circle (c : color) (center : Z * Z) (radius : Z)
| lines (c : color) (closed : bool) (points : list (Q * Q)) (width : Z)
| blit_label (text : nat) (dest : Q * Q).

Inductive exn : Type := ValueError.

Inductive outcome (A : Type) : Type :=
| Ok (a : A)
| Raise (e : exn).
Arguments Ok {A} a.
Arguments Raise {A} e.

(** [pygame.draw.lines]: the library raises [ValueError] ("points argument
    must contain 2 or more points") on a shorter point list. *)
Definition pygame_draw_lines (c : color) (closed : bool)
    (points : list (Q * Q)) (width : Z) : outcome draw_call :=
  if (List.length points <? 2)%nat then Raise ValueError
  else Ok (lines c closed points width).

(** One channel of the comprehension [min(255, int(c + factor * 80))]. *)
Definition channel (factor : Q) (c : Z) : Z :=
  Z.min 255 (int (inject_Z c + factor * 80)).

Definition display_color (zq : Q) (base : color) : color :=
  let factor := 1 - zq / 100 in
  let '(r, g, b) := base in
  (channel factor r, channel factor g, channel factor b).

(** [SkyObject._draw_id(self, surface, x, y)] *)
Definition _draw_id (self : SkyObject) (px py : Q) : draw_call :=
  blit_label (id self) (px + 8, py - 8).

(** The horizontal screen coordinate of the GROUND branch. *)
Definition ground_x (G : Globals) (self : SkyObject) : Q :=
  if (DIRECTION G =? "EAST")%string then x self else inject_Z WIDTH - x self.

(** [SkyObject.draw(self, surface)]: the object after the call, and either
    the calls of a completed draw or the exception that escaped from it. *)
Definition draw (G : Globals) (self : SkyObject)
    : SkyObject * outcome (list draw_call) :=
  let col := display_color (z self) (base_color self) in
  if (VIEW_MODE G =? "PLAN")%string then
    let c := circle col (int (x self), int (y self)) 5 in
    match pygame_draw_lines col false (trail self) 1 with
    | Raise e => (self, Raise e)
    | Ok l => (self, Ok [c; l; _draw_id self (x self) (y self)])
    end
  else
    let gx := ground_x G self in
    let gy := inject_Z HEIGHT - z self * 5 in
    (self, Ok [circle col (int gx, int gy) 5; _draw_id self gx gy]).

(** ** Spawning *)

(** The [counts] dictionary of [spawn_objects]: one entry per key of
    [OBJECT_TYPES], never extended. *)
Definition counts_t : Type := otype -> nat.

Definition counts_init : counts_t := fun _ => 0%nat.

(** [counts[k] += 1] *)
Definition counts_incr (k : otype) (c : counts_t) : counts_t :=
  fun t => if otype_eqb t k then S (c t) else c t.

(** What the random module returned during one iteration of the spawn loop:
    the key chosen by [random.choices] (every key has a positive weight, so
    any of them can come out) and the draws of the constructor, consumed
    only when the iteration builds an object. *)
Record spawn_draw : Type := mkSpawnDraw {
  draw_choice : otype;
  draw_init : init_draws
}.

(** The [while] loop of [spawn_objects] over the local variables
    [objs], [oid], [counts].  [rnd i] answers the random calls of the
    iteration numbered [i]; [fuel] bounds the number of iterations that are
    run, and [None] means the loop is still running when it is used up. *)
Fixpoint spawn_loop (max_objects max_per_type : nat) (rnd : nat -> spawn_draw)
    (fuel i : nat) (objs : list SkyObject) (oid : nat) (counts : counts_t)
    : option (list SkyObject) :=
  if (List.length objs <? max_objects)%nat then
    match fuel with
    | O => None
    | S fuel' =>
        let choice := draw_choice (rnd i) in
        if (counts choice <? max_per_type)%nat then
          spawn_loop max_objects max_per_type rnd fuel' (S i)
            (objs ++ [SkyObject_init oid choice (draw_init (rnd i))])
            (oid + 1)%nat (counts_incr choice counts)
        else
          spawn_loop max_objects max_per_type rnd fuel' (S i) objs oid counts
    end
  else Some objs.

(** [spawn_objects()] for a configuration [(MAX_OBJECTS, MAX_PER_TYPE)]. *)
Definition spawn_objects_cfg (max_objects max_per_type : nat)
    (rnd : nat -> spawn_draw) (fuel : nat) : option (list SkyObject) :=
  spawn_loop max_objects max_per_type rnd fuel 0 [] 1%nat counts_init.

(** [spawn_objects()] with the constants of the module. *)
Definition spawn_objects (rnd : nat -> spawn_draw) (fuel : nat)
    : option (list SkyObject) :=
  spawn_objects_cfg MAX_OBJECTS MAX_PER_TYPE rnd fuel.

(** How many objects of a list have a given type. *)
Definition count_type (t : otype) (objs : list SkyObject) : nat :=
  List.length (filter (fun o => otype_eqb (otype_of o) t) objs).

(** A sequence of draws in which every key keeps coming back; the random
    generator produces such a sequence with probability one. *)
Definition fair (rnd : nat -> spawn_draw) : Prop :=
  forall (t : otype) (n : nat), exists m, (n <= m)%nat /\ draw_choice (rnd m) = t.

(** ** User interface and main loop *)

Definition BUTTON_HEIGHT : Z := 50.
Definition SLIDER_Y : Z := HEIGHT - 80.
Definition SLIDER_X : Z := 200.
Definition SLIDER_W : Z := 600.
Definition SLIDER_H : Z := 20.
Definition KNOB_RADIUS : Z := 12.

Record Rect : Type := mkRect { left : Z; top : Z; w : Z; h : Z }.

(** [pygame.Rect.collidepoint]: the right and bottom edges are outside. *)
Definition collidepoint (r : Rect) (px py : Z) : bool :=
  ((left r <=? px) && (px <? left r + w r) &&
   (top r <=? py) && (py <? top r + h r))%Z.

Definition view_btn : Rect := mkRect 20 (HEIGHT - BUTTON_HEIGHT - 20) 150 BUTTON_HEIGHT.
Definition dir_btn : Rect := mkRect 20 (HEIGHT - 2 * BUTTON_HEIGHT - 40) 150 BUTTON_HEIGHT.

Inductive event : Type :=
| QUIT
| MOUSEBUTTONDOWN (pos : Z * Z)
| MOUSEBUTTONUP
| MOUSEMOTION (pos : Z * Z)
| OTHER.

(** The variables the event loop of [main] reads and writes. *)
Record loop_state : Type := mkLoop {
  globals : Globals;
  running : bool;
  dragging_slider : bool
}.

(** The value assigned to [SPEED_MULTIPLIER] for a pointer at [mx]. *)
Definition slider_value (mx : Z) : Q :=
  let ratio := inject_Z (mx - SLIDER_X) / inject_Z SLIDER_W in
  let ratio := Qmax 0 (Qmin 1 ratio) in
  (1 # 2) + ratio * (5 # 2).

(** The two conditional expressions of the button handlers. *)
Definition toggle_view (v : string) : string :=
  if (v =? "PLAN")%string then "GROUND" else "PLAN".

Definition toggle_direction (d : string) : string :=
  if (d =? "EAST")%string then "WEST" else "EAST".

(** One pass through the body of [for event in pygame.event.get()]. *)
Definition handle_event (st : loop_state) (ev : event) : loop_state :=
  let G := globals st in
  match ev with
  | QUIT => mkLoop G false (dragging_slider st)
  | MOUSEBUTTONDOWN (mx, my) =>
      if collidepoint view_btn mx my then
        mkLoop (mkGlobals (toggle_view (VIEW_MODE G))
                          (DIRECTION G) (SPEED_MULTIPLIER G))
               (running st) (dragging_slider st)
      else if collidepoint dir_btn mx my then
        mkLoop (mkGlobals (VIEW_MODE G)
                          (toggle_direction (DIRECTION G))
                          (SPEED_MULTIPLIER G))
               (running st) (dragging_slider st)
      else if ((SLIDER_X <=? mx) && (mx <=? SLIDER_X + SLIDER_W) &&
               (SLIDER_Y - 10 <=? my) && (my <=? SLIDER_Y + SLIDER_H + 10))%Z then
        mkLoop G (running st) true
      else st
  | MOUSEBUTTONUP => mkLoop G (running st) false
  | MOUSEMOTION (mx, _) =>
      if dragging_slider st then
        mkLoop (mkGlobals (VIEW_MODE G) (DIRECTION G) (slider_value mx))
               (running st) (dragging_slider st)
      else st
  | OTHER => st
  end.

(** The [for obj in objects: obj.update(); obj.draw(screen)] loop of one
    frame; [dzs] holds the depth draw of each object.  An exception raised
    by a [draw] leaves the loop at once. *)
Fixpoint update_and_draw_all (G : Globals) (dzs : list Q) (objects : list SkyObject)
    : outcome (list SkyObject * list draw_call) :=
  match objects with
  | [] => Ok ([], [])
  | obj :: rest =>
      let obj := update G (hd 0 dzs) obj in
      match draw G obj with
      | (_, Raise e) => Raise e
      | (obj, Ok calls) =>
          match update_and_draw_all G (tl dzs) rest with
          | Raise e => Raise e
          | Ok (rest', calls') => Ok (obj :: rest', calls ++ calls')
          end
      end
  end.

(** The specification's formula for the slider, with the usual clamp. *)
Definition clamp (v lo hi : Q) : Q :=
  if Qltb v lo then lo else if Qltb hi v then hi else v.

Definition spec_slider_value (pointer_x slider_left slider_width : Z) : Q :=
  (1 # 2) + clamp (inject_Z (pointer_x - slider_left) / inject_Z slider_width) 0 1 * (5 # 2).

(** ** The slider widget *)

(** The calls the widgets issue to pygame.  [border_radius] is [None] where
    the call does not pass it. *)
Inductive ui_call : Type :=
| ui_rect (c : color) (r : Rect) (border_radius : option Z)
| ui_circle (c : color) (center : Z * Z) (radius : Z).

(** The horizontal position of the knob computed by [draw_slider]. *)
Definition knob_x (value : Q) : Z :=
  (SLIDER_X + int (((value - (1 # 2)) / (5 # 2)) * inject_Z SLIDER_W))%Z.

(** [draw_slider(surface, value)] *)
Definition draw_slider (value : Q) : list ui_call :=
  [ui_rect (100, 100, 100)%Z (mkRect SLIDER_X SLIDER_Y SLIDER_W SLIDER_H) None;
   ui_circle (200, 200, 200)%Z (knob_x value, SLIDER_Y + SLIDER_H / 2)%Z KNOB_RADIUS].

(** ** Runs of the loops *)

(** The events of [pygame.event.get()], handled in order. *)
Definition handle_events (st : loop_state) (evs : list event) : loop_state :=
  fold_left handle_event evs st.

(** The loop state when [main] enters its [while]. *)
Definition initial_loop_state : loop_state := mkLoop initial_globals true false.

(** The objects after the [update] calls of one frame. *)
Fixpoint update_all (G : Globals) (dzs : list Q) (objects : list SkyObject)
    : list SkyObject :=
  match objects with
  | [] => []
  | obj :: rest => update G (hd 0 dzs) obj :: update_all G (tl dzs) rest
  end.

(** The position [update] appends to the trail: the advanced position,
    before the wraparound tests. *)
Definition advanced (G : Globals) (o : SkyObject) : Q * Q :=
  (x o + vx o * SPEED_MULTIPLIER G, y o + vy o * SPEED_MULTIPLIER G).

(** The advanced positions of a run of [update] calls, oldest first. *)
Fixpoint history (calls : list (Globals * Q)) (o : SkyObject) : list (Q * Q) :=
  match calls with
  | [] => []
  | c :: cs => advanced (fst c) o :: history cs (update (fst c) (snd c) o)
  end.

(** The last [n] elements of a list. *)
Definition last_n {A : Type} (n : nat) (l : list A) : list A :=
  skipn (List.length l - n) l.

(** The test of the third branch of the button-down handler. *)
Definition in_slider_band (mx my : Z) : bool :=
  ((SLIDER_X <=? mx) && (mx <=? SLIDER_X + SLIDER_W) &&
   (SLIDER_Y - 10 <=? my) && (my <=? SLIDER_Y + SLIDER_H + 10))%Z.

Definition is_quit (ev : event) : bool :=
  match ev with QUIT => true | _ => false end.

(** The values the two mode globals are meant to range over. *)
Definition globals_ok (G : Globals) : Prop :=
  (VIEW_MODE G = "PLAN"%string \/ VIEW_MODE G = "GROUND"%string) /\
  (DIRECTION G = "EAST"%string \/ DIRECTION G = "WEST"%string) /\
  (1 # 2 <= SPEED_MULTIPLIER G <= 3).

(** ** Vocabulary of the statements *)

(** The snap of one coordinate: the two [if] statements of [update] for one
    axis, in order, as a function of the advanced coordinate. *)
Definition snap (bound : Z) (v : Q) : Q :=
  if Qltb v 0 then inject_Z bound
  else if Qltb (inject_Z bound) v then 0 else v.

(** Channels and colours in the range pygame accepts. *)
Definition valid_channel (c : Z) : Prop := (0 <= c <= 255)%Z.

Definition valid_color (c : color) : Prop :=
  let '(r, g, b) := c in valid_channel r /\ valid_channel g /\ valid_channel b.

Definition color_le (c1 c2 : color) : Prop :=
  let '(r1, g1, b1) := c1 in
  let '(r2, g2, b2) := c2 in
  (r1 <= r2 /\ g1 <= g2 /\ b1 <= b2)%Z.

Definition sum_counts (c : counts_t) : nat :=
  (c Plane + c Helicopter + c Satellite + c Meteor + c Rare)%nat.

(** What holds of [objs], [oid] and [counts] each time the spawn loop tests
    its condition. *)
Record spawn_inv (max_per_type : nat) (objs : list SkyObject) (oid : nat)
    (counts : counts_t) : Prop := mkSpawnInv {
  inv_ids : map id objs = seq 1 (List.length objs);
  inv_oid : oid = S (List.length objs);
  inv_counts : forall t, count_type t objs = counts t;
  inv_cap : forall t, (counts t <= max_per_type)%nat
}.

(** What the specification asks of the list that is returned. *)
Definition spawn_post (max_objects max_per_type : nat) (objs : list SkyObject) : Prop :=
  List.length objs = max_objects /\
  (forall t, (count_type t objs <= max_per_type)%nat) /\
  map id objs = seq 1 max_objects.

(** ** Sample data *)

(** Two objects one step away from leaving the canvas. *)
Definition near_right_bottom : SkyObject :=
  mkSkyObject 1 Plane (255, 0, 0)%Z 999 699 50 [] 3 normal 3 3.

Definition near_left_top : SkyObject :=
  mkSkyObject 2 Rare (150, 0, 150)%Z 1 1 50 [] 3 normal (-3) (-3).

(** An object whose next step lands exactly on the right edge, and one in
    the middle of the depth range. *)
Definition on_right_edge : SkyObject :=
  mkSkyObject 1 Plane (255, 0, 0)%Z 997 0 50 [] 3 normal 3 0.


(** A press on the top-left pixel of the direction button. *)
Definition click_dir_btn : event := MOUSEBUTTONDOWN (20, 560)%Z.

(** The loop state in the middle of a slider drag. *)
Definition dragging_state : loop_state := mkLoop initial_globals true true.

(** A fair sequence of draws: the keys in turn, always with the same
    constructor draws. *)
Definition sample_init : init_draws :=
  mkInitDraws 500 100 50 2 normal 1 0.

Definition round_robin (i : nat) : spawn_draw :=
  mkSpawnDraw (nth (i mod 5) OBJECT_TYPES_keys Plane) sample_init.

Definition otype_index (t : otype) : nat :=
  match t with
  | Plane => 0 | Helicopter => 1 | Satellite => 2 | Meteor => 3 | Rare => 4
  end.

(** * Properties *)

(** ** The model on concrete inputs *)

Example int_truncates_towards_zero :
  int (7 # 2) = 3%Z /\ int (- (7 # 2)) = (-3)%Z /\ int 0 = 0%Z.
Proof. repeat split. Qed.

Example display_color_half_depth :
  display_color 50 (OBJECT_TYPES_color Plane) = (255, 40, 40)%Z.
Proof. reflexivity. Qed.

Example collidepoint_edges :
  collidepoint view_btn 20 630 = true /\
  collidepoint view_btn 170 630 = false /\
  collidepoint dir_btn 169 609 = true.
Proof. repeat split. Qed.

Example spawn_round_robin :
  option_map (map (fun o => (id o, otype_of o))) (spawn_objects round_robin 7)
    = Some [(1, Plane); (2, Helicopter); (3, Satellite); (4, Meteor);
            (5, Rare); (6, Plane); (7, Helicopter)]%nat /\
  spawn_objects round_robin 6 = None.
Proof. split; reflexivity. Qed.

Example draw_ground_west :
  snd (draw (mkGlobals "GROUND" "WEST" 1) (SkyObject_init 3 Rare sample_init))
    = Ok [circle (190, 40, 190)%Z (500, 450)%Z 5;
          blit_label 3 (inject_Z WIDTH - 500 + 8, inject_Z HEIGHT - 50 * 5 - 8)].
Proof. reflexivity. Qed.

Example update_sample :
  let o := update initial_globals (1 # 10) (SkyObject_init 3 Rare sample_init) in
  x o = 500 + 1 * 2 * 1 /\ List.length (trail o) = 1%nat /\ id o = 3%nat.
Proof. repeat split. Qed.

(** ** Comparisons and truncation *)

Lemma Qltb_lt (a b : Q) : Qltb a b = true <-> a < b.
Proof. unfold Qltb. rewrite Qlt_alt. destruct (a ?= b); split; congruence. Qed.

Lemma Qltb_ge (a b : Q) : Qltb a b = false <-> b <= a.
Proof.
  unfold Qltb. rewrite Qle_alt, <- (Qcompare_antisym a b).
  destruct (a ?= b); cbn; split; congruence.
Qed.

Lemma Qltb_irrefl (a : Q) : Qltb a a = false.
Proof. apply Qltb_ge, Qle_refl. Qed.

Lemma int_nonneg (q : Q) : 0 <= q -> int q = Qfloor q.
Proof.
  destruct q as [n d]. unfold Qle, int, Qfloor. cbn. intros Hn.
  apply Z.quot_div_nonneg; lia.
Qed.

Lemma int_neg (q : Q) : q < 0 -> int q = Qceiling q.
Proof.
  destruct q as [n d]. unfold Qlt, int, Qceiling, Qfloor. cbn. intros Hn.
  replace n with (- - n)%Z at 1 by lia.
  rewrite Z.quot_opp_l by lia.
  f_equal. apply Z.quot_div_nonneg; lia.
Qed.

Lemma int_mono (p q : Q) : p <= q -> (int p <= int q)%Z.
Proof.
  intros Hpq.
  destruct (Qlt_le_dec p 0) as [Hp | Hp], (Qlt_le_dec q 0) as [Hq | Hq].
  - rewrite !int_neg by assumption. now apply Qceiling_resp_le.
  - rewrite (int_neg p), (int_nonneg q) by assumption.
    transitivity 0%Z.
    + change 0%Z with (Qceiling 0). apply Qceiling_resp_le. lra.
    + change 0%Z with (Qfloor 0). now apply Qfloor_resp_le.
  - lra.
  - rewrite !int_nonneg by assumption. now apply Qfloor_resp_le.
Qed.

(** ** The fields of an updated object *)

Ltac split_if :=
  match goal with
  | |- context [if ?c then _ else _] =>
      lazymatch c with
      | context [if _ then _ else _] => fail
      | _ => destruct c eqn:?
      end
  end.

Ltac kill_irrefl :=
  match goal with
  | H : Qltb ?a ?a = true |- _ => rewrite Qltb_irrefl in H; discriminate H
  end.

Ltac run_update :=
  unfold update;
  cbn -[Qltb Qplus Qmult Qmax Qmin inject_Z Nat.ltb];
  repeat (split_if; cbn -[Qltb Qplus Qmult Qmax Qmin inject_Z Nat.ltb]);
  try kill_irrefl.

Lemma x_update (G : Globals) (dz : Q) (o : SkyObject) :
  x (update G dz o) = snap WIDTH (x o + vx o * SPEED_MULTIPLIER G).
Proof. destruct o. unfold snap. run_update; reflexivity. Qed.

Lemma y_update (G : Globals) (dz : Q) (o : SkyObject) :
  y (update G dz o) = snap HEIGHT (y o + vy o * SPEED_MULTIPLIER G).
Proof. destruct o. unfold snap. run_update; reflexivity. Qed.

Lemma z_update (G : Globals) (dz : Q) (o : SkyObject) :
  z (update G dz o) = Qmax 0 (Qmin 100 (z o + dz)).
Proof. destruct o. run_update; reflexivity. Qed.

Lemma trail_update (G : Globals) (dz : Q) (o : SkyObject) :
  trail (update G dz o) =
    let t := trail o ++ [(x o + vx o * SPEED_MULTIPLIER G,
                          y o + vy o * SPEED_MULTIPLIER G)] in
    if (10 <? List.length t)%nat then pop0 t else t.
Proof. destruct o. run_update; reflexivity. Qed.

Lemma updates_snoc (calls : list (Globals * Q)) (c : Globals * Q) (o : SkyObject) :
  updates (calls ++ [c]) o = update (fst c) (snd c) (updates calls o).
Proof. unfold updates. now rewrite fold_left_app. Qed.

Lemma snap_range (bound : Z) (v : Q) :
  (0 <= bound)%Z -> 0 <= snap bound v <= inject_Z bound.
Proof.
  intros Hb. assert (0 <= inject_Z bound) by (unfold Qle; cbn; lia).
  unfold snap.
  destruct (Qltb v 0) eqn:E1; [split; [assumption | apply Qle_refl] |].
  destruct (Qltb (inject_Z bound) v) eqn:E2; [split; [apply Qle_refl | assumption] |].
  apply Qltb_ge in E1, E2. now split.
Qed.

Lemma depth_clamped (v : Q) : 0 <= Qmax 0 (Qmin 100 v) <= 100.
Proof.
  split.
  - apply Q.le_max_l.
  - apply Q.max_lub; [discriminate | apply Q.le_min_l].
Qed.

Lemma trail_length_update (G : Globals) (dz : Q) (o : SkyObject) :
  (List.length (trail o) <= 10 ->
   List.length (trail (update G dz o)) <= 10)%nat.
Proof.
  intros Hlen. rewrite trail_update. cbv zeta.
  destruct (10 <? _)%nat eqn:E.
  - unfold pop0. rewrite length_tl, length_app. cbn. lia.
  - apply Nat.ltb_ge in E. exact E.
Qed.

Lemma trail_length_updates (calls : list (Globals * Q)) (o : SkyObject) :
  (List.length (trail o) <= 10 ->
   List.length (trail (updates calls o)) <= 10)%nat.
Proof.
  revert o. induction calls as [| c calls IH]; intros o Hlen; [exact Hlen |].
  cbn. apply IH, trail_length_update, Hlen.
Qed.

(** ** Depth and trail bounds *)

(** C2. Take any object as the constructor builds it and any finite run of
    [update] calls, each with its own speed multiplier and depth draw.
    After the last call of the run (so after each call of any run) the
    depth lies in [0, 100] and the trail holds at most 10 positions. *)
Theorem update_keeps_depth_and_trail_bounded :
  forall (oid : nat) (ot : otype) (r : init_draws)
         (calls : list (Globals * Q)) (c : Globals * Q),
    let o := updates (calls ++ [c]) (SkyObject_init oid ot r) in
    (0 <= z o <= 100) /\ (List.length (trail o) <= 10)%nat.
Proof.
  intros oid ot r calls c o. split.
  - subst o. rewrite updates_snoc, z_update. apply depth_clamped.
  - subst o. apply trail_length_updates. cbn. lia.
Qed.

(** ** Wraparound *)

(** C4. Boundary snap: when the advance takes [x] strictly beyond [WIDTH] the
    updated [x] is exactly 0, when it takes [x] strictly below 0 the updated
    [x] is exactly [WIDTH]; the same for [y] against [HEIGHT].  This holds
    for every object, speed multiplier and depth draw. *)
Theorem update_boundary_snap :
  forall (G : Globals) (dz : Q) (o : SkyObject),
    let x1 := x o + vx o * SPEED_MULTIPLIER G in
    let y1 := y o + vy o * SPEED_MULTIPLIER G in
    (inject_Z WIDTH < x1 -> x (update G dz o) = 0) /\
    (x1 < 0 -> x (update G dz o) = inject_Z WIDTH) /\
    (inject_Z HEIGHT < y1 -> y (update G dz o) = 0) /\
    (y1 < 0 -> y (update G dz o) = inject_Z HEIGHT).
Proof.
  intros G dz o x1 y1. rewrite x_update, y_update. fold x1 y1.
  clearbody x1 y1. unfold snap.
  repeat split; intros Hout.
  - assert (E : Qltb x1 0 = false)
      by (apply Qltb_ge; apply Qlt_le_weak; refine (Qle_lt_trans _ _ _ _ Hout); discriminate).
    rewrite E. apply Qltb_lt in Hout. now rewrite Hout.
  - apply Qltb_lt in Hout. now rewrite Hout.
  - assert (E : Qltb y1 0 = false)
      by (apply Qltb_ge; apply Qlt_le_weak; refine (Qle_lt_trans _ _ _ _ Hout); discriminate).
    rewrite E. apply Qltb_lt in Hout. now rewrite Hout.
  - apply Qltb_lt in Hout. now rewrite Hout.
Qed.

Lemma update_boundary_snap_witness :
  (x (update initial_globals 0 near_right_bottom) = 0 /\
   y (update initial_globals 0 near_right_bottom) = 0) /\
  (x (update initial_globals 0 near_left_top) = inject_Z WIDTH /\
   y (update initial_globals 0 near_left_top) = inject_Z HEIGHT).
Proof.
  split; split.
  - apply (update_boundary_snap initial_globals 0 near_right_bottom). reflexivity.
  - apply (update_boundary_snap initial_globals 0 near_right_bottom). reflexivity.
  - apply (update_boundary_snap initial_globals 0 near_left_top). reflexivity.
  - apply (update_boundary_snap initial_globals 0 near_left_top). reflexivity.
Defined.

(** C10. After every [update] the position lies in the closed rectangle:
    [0 <= x <= WIDTH] and [0 <= y <= HEIGHT], whatever the object, its
    velocity and the speed multiplier. *)
Theorem update_position_in_canvas :
  forall (G : Globals) (dz : Q) (o : SkyObject),
    (0 <= x (update G dz o) <= inject_Z WIDTH) /\
    (0 <= y (update G dz o) <= inject_Z HEIGHT).
Proof.
  intros G dz o. rewrite x_update, y_update.
  split; apply snap_range; discriminate.
Qed.

(** ** Frame conditions *)

(** C9. [update] leaves the id, the type, the base colour, the speed, the
    movement behaviour and the velocity of the object as they were, and
    [draw] returns the object it was given, every field untouched. *)
Theorem update_and_draw_frame :
  forall (G : Globals) (dz : Q) (o : SkyObject),
    (id (update G dz o) = id o /\
     otype_of (update G dz o) = otype_of o /\
     base_color (update G dz o) = base_color o /\
     speed (update G dz o) = speed o /\
     movement_of (update G dz o) = movement_of o /\
     vx (update G dz o) = vx o /\
     vy (update G dz o) = vy o) /\
    fst (draw G o) = o.
Proof.
  intros G dz o. split.
  - destruct o. repeat split; run_update; reflexivity.
  - unfold draw.
    destruct (VIEW_MODE G =? "PLAN")%string; [| reflexivity].
    destruct (pygame_draw_lines _ _ _ _); reflexivity.
Qed.

(** ** Ground view *)

Lemma handle_click_dir_btn (st : loop_state) :
  globals (handle_event st click_dir_btn)
    = mkGlobals (VIEW_MODE (globals st))
                (toggle_direction (DIRECTION (globals st)))
                (SPEED_MULTIPLIER (globals st)).
Proof. reflexivity. Qed.

(** C7. In the GROUND branch the horizontal screen coordinate for WEST is
    [WIDTH] minus the one for EAST, for every object; toggling the direction
    twice (as two clicks on the direction button do) gives back the screen
    coordinate one started with. *)
Theorem ground_x_mirror :
  forall (vm : string) (s : Q) (o : SkyObject),
    ground_x (mkGlobals vm "WEST" s) o
      = inject_Z WIDTH - ground_x (mkGlobals vm "EAST" s) o /\
    (forall d : string,
        ground_x (mkGlobals vm (toggle_direction (toggle_direction d)) s) o
          = ground_x (mkGlobals vm d s) o) /\
    (forall st : loop_state,
        ground_x (globals (handle_event (handle_event st click_dir_btn) click_dir_btn)) o
          = ground_x (globals st) o).
Proof.
  intros vm s o. split; [reflexivity |]. split.
  - intros d. unfold ground_x, toggle_direction. cbn [DIRECTION].
    destruct (d =? "EAST")%string; reflexivity.
  - intros st. rewrite !handle_click_dir_btn.
    unfold ground_x, toggle_direction. cbn [DIRECTION].
    destruct (DIRECTION (globals st) =? "EAST")%string; reflexivity.
Qed.

(** ** The first frame in PLAN mode *)

(** C3. A freshly constructed object that has been updated once has a trail
    of exactly one point, so the [draw] of the first frame, in the initial
    PLAN mode, hands a one-point list to [pygame.draw.lines], which raises
    [ValueError]; the exception leaves the frame loop of [main]. *)
Theorem first_frame_draw_raises :
  forall (oid : nat) (ot : otype) (r : init_draws) (dz : Q)
         (dzs : list Q) (rest : list SkyObject),
    let o := update initial_globals dz (SkyObject_init oid ot r) in
    List.length (trail o) = 1%nat /\
    snd (draw initial_globals o) = Raise ValueError /\
    update_and_draw_all initial_globals (dz :: dzs) (SkyObject_init oid ot r :: rest)
      = Raise ValueError.
Proof.
  intros oid ot r dz dzs rest o.
  assert (Ht : trail o = [(x (SkyObject_init oid ot r)
                             + vx (SkyObject_init oid ot r) * 1,
                           y (SkyObject_init oid ot r)
                             + vy (SkyObject_init oid ot r) * 1)]).
  { subst o. rewrite trail_update. reflexivity. }
  assert (Hd : snd (draw initial_globals o) = Raise ValueError).
  { unfold draw. cbn [VIEW_MODE initial_globals String.eqb Ascii.eqb Bool.eqb].
    rewrite Ht. reflexivity. }
  repeat split.
  - now rewrite Ht.
  - exact Hd.
  - cbn [update_and_draw_all hd]. fold o.
    destruct (draw initial_globals o) as [o' [calls | e]]; cbn in Hd.
    + discriminate Hd.
    + now injection Hd as ->.
Qed.

(** ** The speed slider *)

Lemma clamp_unit (r : Q) : Qmax 0 (Qmin 1 r) == clamp r 0 1.
Proof.
  unfold clamp.
  destruct (Qltb r 0) eqn:E0.
  - apply Qltb_lt in E0.
    destruct (Q.max_spec 0 (Qmin 1 r)) as [[Hlt _] | [_ ->]]; [| reflexivity].
    exfalso. apply (Qlt_irrefl 0).
    apply (Qlt_le_trans _ _ _ Hlt), (Qle_trans _ r); [apply Q.le_min_r | lra].
  - apply Qltb_ge in E0.
    destruct (Qltb 1 r) eqn:E1.
    + apply Qltb_lt in E1.
      rewrite (Q.min_l 1 r) by lra. now rewrite Q.max_r.
    + apply Qltb_ge in E1.
      rewrite (Q.min_r 1 r) by exact E1. now rewrite Q.max_r.
Qed.

Lemma slider_value_spec (mx : Z) :
  slider_value mx == spec_slider_value mx SLIDER_X SLIDER_W.
Proof. unfold slider_value, spec_slider_value. now rewrite clamp_unit. Qed.

Lemma slider_value_range (mx : Z) : 1 # 2 <= slider_value mx <= 3.
Proof.
  unfold slider_value. cbv zeta.
  set (r := inject_Z (mx - SLIDER_X) / inject_Z SLIDER_W).
  assert (H0 : 0 <= Qmax 0 (Qmin 1 r)) by apply Q.le_max_l.
  assert (H1 : Qmax 0 (Qmin 1 r) <= 1)
    by (apply Q.max_lub; [discriminate | apply Q.le_min_l]).
  split; lra.
Qed.

(** C6. While a slider drag is active, a pointer motion to [mx] sets
    [SPEED_MULTIPLIER] to 0.5 + clamp((mx - SLIDER_X) / SLIDER_W, 0, 1) * 2.5;
    the value lies in [0.5, 3.0], it is 0.5 at the left end of the track and
    3.0 at the right end. *)
Theorem slider_drag_sets_speed :
  forall (st : loop_state) (mx my : Z),
    dragging_slider st = true ->
    let v := SPEED_MULTIPLIER (globals (handle_event st (MOUSEMOTION (mx, my)))) in
    v == spec_slider_value mx SLIDER_X SLIDER_W /\
    (1 # 2 <= v <= 3) /\
    (mx = SLIDER_X -> v == 1 # 2) /\
    (mx = (SLIDER_X + SLIDER_W)%Z -> v == 3).
Proof.
  intros st mx my Hdrag v.
  assert (Hv : v = slider_value mx).
  { subst v. cbn [handle_event]. now rewrite Hdrag. }
  rewrite Hv. clear v Hv. split; [apply slider_value_spec |].
  split; [apply slider_value_range |].
  split; intros ->; reflexivity.
Qed.

Lemma slider_drag_sets_speed_witness :
  SPEED_MULTIPLIER (globals (handle_event dragging_state (MOUSEMOTION (200, 620)%Z)))
    == 1 # 2 /\
  SPEED_MULTIPLIER (globals (handle_event dragging_state (MOUSEMOTION (800, 620)%Z)))
    == 3.
Proof.
  split.
  - apply (slider_drag_sets_speed dragging_state 200 620 eq_refl). reflexivity.
  - apply (slider_drag_sets_speed dragging_state 800 620 eq_refl). reflexivity.
Defined.

(** ** Colour attenuation *)

Lemma factor_antitone (z1 z2 : Q) : z1 <= z2 -> 1 - z2 / 100 <= 1 - z1 / 100.
Proof.
  intros H. unfold Qdiv.
  setoid_replace (/ 100) with (1 # 100) by reflexivity. lra.
Qed.

Lemma factor_nonneg (zq : Q) : zq <= 100 -> 0 <= 1 - zq / 100.
Proof.
  intros H. unfold Qdiv.
  setoid_replace (/ 100) with (1 # 100) by reflexivity. lra.
Qed.

Lemma channel_mono (f1 f2 : Q) (c : Z) :
  f1 <= f2 -> (channel f1 c <= channel f2 c)%Z.
Proof.
  intros Hf. unfold channel. apply Z.min_le_compat_l, int_mono. lra.
Qed.

Lemma channel_valid (f : Q) (c : Z) :
  (0 <= c)%Z -> 0 <= f -> valid_channel (channel f c).
Proof.
  intros Hc Hf. unfold valid_channel, channel. split.
  - apply Z.min_glb; [lia |].
    change 0%Z with (int 0). apply int_mono.
    assert (0 <= inject_Z c) by (unfold Qle; cbn; lia). lra.
  - apply Z.le_min_l.
Qed.

Lemma catalogue_colors_valid (t : otype) : valid_color (OBJECT_TYPES_color t).
Proof. destruct t; cbn; unfold valid_channel; lia. Qed.

(** C8. For a fixed base colour with channels in 0..255 and depths
    [0 <= z1 <= z2 <= 100], every channel of the colour displayed at [z1] is
    at least the same channel at [z2], and both displayed colours have all
    their channels in 0..255. *)
Theorem display_color_monotone :
  forall (base : color) (z1 z2 : Q),
    valid_color base -> 0 <= z1 -> z1 <= z2 -> z2 <= 100 ->
    color_le (display_color z2 base) (display_color z1 base) /\
    valid_color (display_color z1 base) /\
    valid_color (display_color z2 base).
Proof.
  intros [[r g] b] z1 z2 (Hr & Hg & Hb) H0 H12 H100.
  pose proof (factor_antitone z1 z2 H12) as Hf.
  assert (Hf1 : 0 <= 1 - z1 / 100) by (apply factor_nonneg; lra).
  assert (Hf2 : 0 <= 1 - z2 / 100) by (apply factor_nonneg; lra).
  unfold valid_channel in Hr, Hg, Hb.
  unfold display_color, color_le, valid_color.
  repeat split; try (now apply channel_mono);
    try (apply channel_valid; [lia | assumption]).
Qed.

Lemma display_color_monotone_witness :
  color_le (display_color 100 (OBJECT_TYPES_color Meteor))
           (display_color 0 (OBJECT_TYPES_color Meteor)) /\
  valid_color (display_color 0 (OBJECT_TYPES_color Meteor)) /\
  valid_color (display_color 100 (OBJECT_TYPES_color Meteor)).
Proof.
  apply (display_color_monotone (OBJECT_TYPES_color Meteor) 0 100).
  - cbn. unfold valid_channel. lia.
  - discriminate.
  - discriminate.
  - discriminate.
Defined.

(** ** The spawn loop *)

Lemma otype_eqb_eq (a b : otype) : otype_eqb a b = true <-> a = b.
Proof. destruct a, b; cbn; split; congruence. Qed.

Lemma otype_eqb_refl (a : otype) : otype_eqb a a = true.
Proof. now apply otype_eqb_eq. Qed.

Lemma otype_eqb_sym (a b : otype) : otype_eqb a b = otype_eqb b a.
Proof. destruct a, b; reflexivity. Qed.

Lemma count_type_snoc (t : otype) (objs : list SkyObject) (o : SkyObject) :
  count_type t (objs ++ [o])
    = (count_type t objs + if otype_eqb (otype_of o) t then 1 else 0)%nat.
Proof.
  unfold count_type. rewrite filter_app, length_app. cbn.
  destruct (otype_eqb (otype_of o) t); reflexivity.
Qed.

Lemma length_by_type (objs : list SkyObject) :
  List.length objs =
    (count_type Plane objs + count_type Helicopter objs + count_type Satellite objs
     + count_type Meteor objs + count_type Rare objs)%nat.
Proof.
  unfold count_type. induction objs as [| o objs IH]; [reflexivity |].
  cbn [List.length filter]. rewrite IH.
  destruct (otype_of o); cbn; lia.
Qed.

Lemma some_type_below_cap (cap : nat) (c : counts_t) :
  (sum_counts c < cap * List.length OBJECT_TYPES_keys)%nat ->
  exists t, (c t < cap)%nat.
Proof.
  unfold sum_counts. cbn [List.length OBJECT_TYPES_keys]. intros Hsum.
  destruct (Nat.lt_ge_cases (c Plane) cap); [now exists Plane |].
  destruct (Nat.lt_ge_cases (c Helicopter) cap); [now exists Helicopter |].
  destruct (Nat.lt_ge_cases (c Satellite) cap); [now exists Satellite |].
  destruct (Nat.lt_ge_cases (c Meteor) cap); [now exists Meteor |].
  destruct (Nat.lt_ge_cases (c Rare) cap); [now exists Rare |].
  lia.
Qed.

Section SpawnLoop.

Variables max_objects max_per_type : nat.
Variable rnd : nat -> spawn_draw.

Local Abbreviation loop := (spawn_loop max_objects max_per_type rnd).
Local Abbreviation inv := (spawn_inv max_per_type).

Local Arguments Nat.ltb : simpl never.

Lemma inv_initial : inv [] 1%nat counts_init.
Proof. split; intros; cbn; auto with arith. Qed.

Lemma inv_length objs oid counts :
  inv objs oid counts -> List.length objs = sum_counts counts.
Proof.
  intros [_ _ Hc _]. rewrite length_by_type. unfold sum_counts.
  now rewrite !Hc.
Qed.

Lemma inv_accept objs oid counts (choice : otype) (r : init_draws) :
  inv objs oid counts ->
  (counts choice < max_per_type)%nat ->
  inv (objs ++ [SkyObject_init oid choice r]) (oid + 1)%nat
      (counts_incr choice counts).
Proof.
  intros [Hids Hoid Hc Hcap] Hlt. split.
  - rewrite map_app, length_app, Hids. cbn [map List.length id SkyObject_init].
    rewrite Nat.add_1_r, seq_S, Hoid. reflexivity.
  - rewrite length_app. cbn. lia.
  - intros t. rewrite count_type_snoc, Hc. unfold counts_incr.
    cbn [otype_of SkyObject_init]. rewrite (otype_eqb_sym choice t).
    destruct (otype_eqb t choice); lia.
  - intros t. unfold counts_incr.
    destruct (otype_eqb t choice) eqn:E; [| apply Hcap].
    apply otype_eqb_eq in E. subst t. lia.
Qed.

Lemma inv_post objs oid counts :
  inv objs oid counts -> List.length objs = max_objects ->
  spawn_post max_objects max_per_type objs.
Proof.
  intros [Hids _ Hc Hcap] Hlen. repeat split.
  - exact Hlen.
  - intros t. rewrite Hc. apply Hcap.
  - now rewrite <- Hlen.
Qed.

(** Whatever the loop returns satisfies the postcondition. *)
Lemma loop_partial fuel :
  forall i objs oid counts res,
    inv objs oid counts -> (List.length objs <= max_objects)%nat ->
    loop fuel i objs oid counts = Some res ->
    spawn_post max_objects max_per_type res.
Proof.
  induction fuel as [| fuel IH]; intros i objs oid counts res Hinv Hle; cbn;
    destruct (List.length objs <? max_objects)%nat eqn:E.
  - discriminate.
  - intros [= <-]. apply Nat.ltb_ge in E. eapply inv_post; eauto. lia.
  - apply Nat.ltb_lt in E.
    destruct (counts (draw_choice (rnd i)) <? max_per_type)%nat eqn:Ec.
    + apply Nat.ltb_lt in Ec. apply IH.
      * now apply inv_accept.
      * rewrite length_app. cbn. lia.
    + now apply IH.
  - intros [= <-]. apply Nat.ltb_ge in E. eapply inv_post; eauto. lia.
Qed.

(** An unsatisfiable request keeps the loop condition true for ever. *)
Lemma loop_unsatisfiable fuel :
  (max_per_type * List.length OBJECT_TYPES_keys < max_objects)%nat ->
  forall i objs oid counts,
    inv objs oid counts -> loop fuel i objs oid counts = None.
Proof.
  intros Hunsat.
  assert (Hroom : forall objs oid counts,
             inv objs oid counts -> (List.length objs <? max_objects)%nat = true).
  { intros objs oid counts Hinv. apply Nat.ltb_lt.
    rewrite (inv_length _ _ _ Hinv). destruct Hinv as [_ _ _ Hcap].
    unfold sum_counts. cbn [List.length OBJECT_TYPES_keys] in Hunsat.
    pose proof (Hcap Plane). pose proof (Hcap Helicopter).
    pose proof (Hcap Satellite). pose proof (Hcap Meteor).
    pose proof (Hcap Rare). lia. }
  induction fuel as [| fuel IH]; intros i objs oid counts Hinv; cbn;
    rewrite (Hroom _ _ _ Hinv); [reflexivity |].
  destruct (counts (draw_choice (rnd i)) <? max_per_type)%nat eqn:Ec.
  - apply Nat.ltb_lt in Ec. apply IH. now apply inv_accept.
  - now apply IH.
Qed.

(** If a key that is still below the cap is drawn [k] iterations from now,
    the loop builds one more object within [k + 1] iterations. *)
Lemma loop_progress (t : otype) (k : nat) :
  forall i objs oid counts,
    inv objs oid counts ->
    (List.length objs < max_objects)%nat ->
    (counts t < max_per_type)%nat ->
    draw_choice (rnd (i + k)) = t ->
    exists n i' objs' oid' counts',
      inv objs' oid' counts' /\
      List.length objs' = S (List.length objs) /\
      forall fuel,
        loop (n + fuel) i objs oid counts = loop fuel i' objs' oid' counts'.
Proof.
  induction k as [| k IH]; intros i objs oid counts Hinv Hroom Ht Hdraw.
  - rewrite Nat.add_0_r in Hdraw.
    exists 1%nat, (S i), (objs ++ [SkyObject_init oid t (draw_init (rnd i))]),
      (oid + 1)%nat, (counts_incr t counts).
    split; [now apply inv_accept |].
    split; [rewrite length_app; cbn; lia |].
    intros fuel. cbn.
    apply Nat.ltb_lt in Hroom, Ht. now rewrite Hroom, Hdraw, Ht.
  - destruct (counts (draw_choice (rnd i)) <? max_per_type)%nat eqn:Ec.
    + exists 1%nat, (S i),
        (objs ++ [SkyObject_init oid (draw_choice (rnd i)) (draw_init (rnd i))]),
        (oid + 1)%nat, (counts_incr (draw_choice (rnd i)) counts).
      split; [apply inv_accept; [assumption | now apply Nat.ltb_lt] |].
      split; [rewrite length_app; cbn; lia |].
      intros fuel. cbn. apply Nat.ltb_lt in Hroom. now rewrite Hroom, Ec.
    + rewrite <- Nat.add_succ_comm in Hdraw.
      destruct (IH (S i) objs oid counts Hinv Hroom Ht Hdraw)
        as (n & i' & objs' & oid' & counts' & Hinv' & Hlen & Hrun).
      exists (S n), i', objs', oid', counts'.
      split; [assumption |]. split; [assumption |].
      intros fuel. cbn. apply Nat.ltb_lt in Hroom. rewrite Hroom, Ec.
      apply Hrun.
Qed.

(** With fair draws a satisfiable request is served after finitely many
    iterations. *)
Lemma loop_terminates (d : nat) :
  (max_objects <= max_per_type * List.length OBJECT_TYPES_keys)%nat ->
  fair rnd ->
  forall i objs oid counts,
    inv objs oid counts ->
    (List.length objs + d = max_objects)%nat ->
    exists fuel res, loop fuel i objs oid counts = Some res.
Proof.
  intros Hsat Hfair.
  induction d as [| d IH]; intros i objs oid counts Hinv Hd.
  - exists 0%nat, objs. cbn.
    assert (E : (List.length objs <? max_objects)%nat = false)
      by (apply Nat.ltb_ge; lia).
    now rewrite E.
  - destruct (some_type_below_cap max_per_type counts) as [t Ht].
    { rewrite <- (inv_length _ _ _ Hinv). lia. }
    destruct (Hfair t i) as (m & Hm & Hdraw).
    replace m with (i + (m - i))%nat in Hdraw by lia.
    destruct (loop_progress t (m - i) i objs oid counts Hinv ltac:(lia) Ht Hdraw)
      as (n & i' & objs' & oid' & counts' & Hinv' & Hlen & Hrun).
    destruct (IH i' objs' oid' counts' Hinv' ltac:(lia)) as (fuel & res & Hres).
    exists (n + fuel)%nat, res. now rewrite Hrun.
Qed.

End SpawnLoop.

Lemma round_robin_fair : fair round_robin.
Proof.
  intros t n. exists (otype_index t + n * 5)%nat. split.
  - lia.
  - unfold round_robin. cbn [draw_choice]. rewrite Nat.Div0.mod_add.
    destruct t; reflexivity.
Qed.

(** C5. For a satisfiable request ([max_objects] at most [max_per_type]
    times the number of types) and draws in which every type keeps coming
    back, [spawn_objects] returns after finitely many iterations; the list it
    returns has exactly [max_objects] objects, no type occurs more than
    [max_per_type] times in it, and its ids, read in list order, are
    1, 2, ..., [max_objects]. *)
Theorem spawn_objects_satisfiable :
  forall (max_objects max_per_type : nat) (rnd : nat -> spawn_draw),
    (max_objects <= max_per_type * List.length OBJECT_TYPES_keys)%nat ->
    fair rnd ->
    (exists fuel objs,
        spawn_objects_cfg max_objects max_per_type rnd fuel = Some objs) /\
    (forall fuel objs,
        spawn_objects_cfg max_objects max_per_type rnd fuel = Some objs ->
        List.length objs = max_objects /\
        (forall t, (count_type t objs <= max_per_type)%nat) /\
        map id objs = seq 1 max_objects).
Proof.
  intros max_objects max_per_type rnd Hsat Hfair. split.
  - apply (loop_terminates max_objects max_per_type rnd max_objects Hsat Hfair).
    + apply inv_initial.
    + reflexivity.
  - intros fuel objs Hrun.
    apply (loop_partial max_objects max_per_type rnd fuel 0 [] 1%nat counts_init).
    + apply inv_initial.
    + apply Nat.le_0_l.
    + exact Hrun.
Qed.

Lemma spawn_objects_satisfiable_witness :
  (exists fuel objs, spawn_objects round_robin fuel = Some objs) /\
  (forall fuel objs,
      spawn_objects round_robin fuel = Some objs ->
      List.length objs = 7%nat /\
      (forall t, (count_type t objs <= 4)%nat) /\
      map id objs = [1; 2; 3; 4; 5; 6; 7]%nat).
Proof.
  apply (spawn_objects_satisfiable MAX_OBJECTS MAX_PER_TYPE round_robin).
  - vm_compute. lia.
  - apply round_robin_fair.
Defined.

(** C1, as the claim states it, fails: with [max_objects = 6] and
    [max_per_type = 1] (five types) no sequence of draws and no number of
    iterations makes the loop stop, with a result or otherwise. *)
Lemma spawn_objects_unsatisfiable_runs_forever :
  ~ exists (rnd : nat -> spawn_draw) (fuel : nat),
      spawn_objects_cfg 6 1 rnd fuel <> None.
Proof.
  intros (rnd & fuel & Hstop). apply Hstop.
  apply loop_unsatisfiable; [vm_compute; lia | apply inv_initial].
Qed.

(** C1, amended.  [spawn_objects] has no error path.  For an unsatisfiable
    request ([max_per_type] times the number of types below [max_objects])
    its loop is still running after any number of iterations, whatever the
    draws; for a satisfiable one it returns a list after finitely many
    iterations, on every sequence of draws in which each type keeps coming
    back. *)
Theorem spawn_objects_termination :
  forall (max_objects max_per_type : nat),
    ((max_per_type * List.length OBJECT_TYPES_keys < max_objects)%nat ->
     forall rnd fuel, spawn_objects_cfg max_objects max_per_type rnd fuel = None) /\
    ((max_objects <= max_per_type * List.length OBJECT_TYPES_keys)%nat ->
     forall rnd, fair rnd ->
       exists fuel objs,
         spawn_objects_cfg max_objects max_per_type rnd fuel = Some objs).
Proof.
  intros max_objects max_per_type. split.
  - intros Hunsat rnd fuel.
    apply loop_unsatisfiable; [exact Hunsat | apply inv_initial].
  - intros Hsat rnd Hfair.
    apply (loop_terminates max_objects max_per_type rnd max_objects Hsat Hfair).
    + apply inv_initial.
    + reflexivity.
Qed.

Lemma spawn_objects_termination_witness :
  spawn_objects_cfg 6 1 round_robin 1000 = None /\
  exists fuel objs, spawn_objects round_robin fuel = Some objs.
Proof.
  split.
  - apply (spawn_objects_termination 6 1). vm_compute. lia.
  - apply (spawn_objects_termination MAX_OBJECTS MAX_PER_TYPE).
    + vm_compute. lia.
    + apply round_robin_fair.
Defined.

(** * Further properties of the code *)

(** ** The trail as a history *)

Lemma last_n_short {A : Type} (n : nat) (l : list A) :
  (List.length l <= n)%nat -> last_n n l = l.
Proof.
  intros H. unfold last_n. replace (List.length l - n)%nat with 0%nat by lia.
  reflexivity.
Qed.

Lemma last_n_length {A : Type} (n : nat) (l : list A) :
  List.length (last_n n l) = Nat.min (List.length l) n.
Proof. unfold last_n. rewrite length_skipn. lia. Qed.

Lemma last_n_app_last_n {A : Type} (n : nat) (a b : list A) :
  last_n n (last_n n a ++ b) = last_n n (a ++ b).
Proof.
  destruct (Nat.le_gt_cases (List.length a) n) as [Hle | Hgt].
  - now rewrite (last_n_short n a).
  - unfold last_n at 1 3. rewrite !length_app, last_n_length.
    replace (Nat.min (List.length a) n + List.length b - n)%nat
      with (List.length b) by lia.
    replace (List.length a + List.length b - n)%nat
      with (List.length b + (List.length a - n))%nat by lia.
    rewrite <- skipn_skipn. f_equal. unfold last_n.
    rewrite skipn_app.
    replace (List.length a - n - List.length a)%nat with 0%nat by lia.
    reflexivity.
Qed.

Lemma trail_update_last_n (G : Globals) (dz : Q) (o : SkyObject) :
  (List.length (trail o) <= 10)%nat ->
  trail (update G dz o) = last_n 10 (trail o ++ [advanced G o]).
Proof.
  intros Hlen. rewrite trail_update. cbv zeta. fold (advanced G o).
  set (t := trail o ++ [advanced G o]).
  assert (Ht : List.length t = S (List.length (trail o)))
    by (subst t; rewrite length_app; cbn; lia).
  destruct (10 <? List.length t)%nat eqn:E.
  - apply Nat.ltb_lt in E. unfold last_n, pop0.
    replace (List.length t - 10)%nat with 1%nat by lia.
    destruct t; reflexivity.
  - apply Nat.ltb_ge in E. now rewrite last_n_short.
Qed.

Lemma trail_updates_last_n (calls : list (Globals * Q)) :
  forall o : SkyObject,
    (List.length (trail o) <= 10)%nat ->
    trail (updates calls o) = last_n 10 (trail o ++ history calls o).
Proof.
  induction calls as [| c calls IH]; intros o Hlen.
  - cbn. rewrite app_nil_r. now rewrite last_n_short.
  - cbn [updates fold_left history].
    change (fold_left (fun o c => update (fst c) (snd c) o) calls
              (update (fst c) (snd c) o))
      with (updates calls (update (fst c) (snd c) o)).
    rewrite IH by (apply trail_length_update, Hlen).
    rewrite trail_update_last_n by exact Hlen.
    rewrite last_n_app_last_n, <- app_assoc. reflexivity.
Qed.

Lemma history_length (calls : list (Globals * Q)) :
  forall o, List.length (history calls o) = List.length calls.
Proof.
  induction calls as [| c calls IH]; intros o; cbn; [reflexivity |].
  now rewrite IH.
Qed.

(** X1. The trail of an object is the chronological record of its last ten
    advanced positions: after any run of [update] calls on a constructed
    object it is the last 10 entries of the run's history, oldest first, and
    it holds min(number of calls, 10) entries. *)
Theorem trail_is_recent_history :
  forall (oid : nat) (ot : otype) (r : init_draws) (calls : list (Globals * Q)),
    let o := SkyObject_init oid ot r in
    trail (updates calls o) = last_n 10 (history calls o) /\
    List.length (trail (updates calls o)) = Nat.min (List.length calls) 10.
Proof.
  intros oid ot r calls o.
  assert (E : trail (updates calls o) = last_n 10 (history calls o)).
  { rewrite trail_updates_last_n by (cbn; lia). reflexivity. }
  split; [exact E |].
  now rewrite E, last_n_length, history_length.
Qed.

Lemma x_update_inside (G : Globals) (dz : Q) (o : SkyObject) :
  0 <= x o + vx o * SPEED_MULTIPLIER G <= inject_Z WIDTH ->
  x (update G dz o) = x o + vx o * SPEED_MULTIPLIER G.
Proof.
  intros [Hlo Hhi]. rewrite x_update. unfold snap.
  apply Qltb_ge in Hlo, Hhi. now rewrite Hlo, Hhi.
Qed.

Lemma y_update_inside (G : Globals) (dz : Q) (o : SkyObject) :
  0 <= y o + vy o * SPEED_MULTIPLIER G <= inject_Z HEIGHT ->
  y (update G dz o) = y o + vy o * SPEED_MULTIPLIER G.
Proof.
  intros [Hlo Hhi]. rewrite y_update. unfold snap.
  apply Qltb_ge in Hlo, Hhi. now rewrite Hlo, Hhi.
Qed.

(** X2. Whatever the object, the newest trail entry after an [update] is the
    advanced position as it was before the wraparound tests: when a
    coordinate is snapped, the trail keeps the overshoot, not the snapped
    value. *)
Theorem trail_newest_is_advanced_position :
  forall (G : Globals) (dz : Q) (o : SkyObject) (d : Q * Q),
    last (trail (update G dz o)) d = advanced G o.
Proof.
  intros G dz o d. rewrite trail_update. cbv zeta. fold (advanced G o).
  destruct (10 <? _)%nat eqn:E.
  - destruct (trail o) as [| p t]; [discriminate E |].
    cbn [app pop0 tl]. apply last_last.
  - apply last_last.
Qed.

(** X3. An advanced position inside the closed canvas, edges included, is
    kept as it is: [update] then leaves the object exactly at the advanced
    position, which is also the newest trail entry. *)
Theorem update_inside_keeps_advanced_position :
  forall (G : Globals) (dz : Q) (o : SkyObject),
    0 <= fst (advanced G o) <= inject_Z WIDTH ->
    0 <= snd (advanced G o) <= inject_Z HEIGHT ->
    (x (update G dz o), y (update G dz o)) = advanced G o /\
    last (trail (update G dz o)) (0, 0) = (x (update G dz o), y (update G dz o)).
Proof.
  intros G dz o Hx Hy. cbn [advanced fst snd] in Hx, Hy.
  assert (E : (x (update G dz o), y (update G dz o)) = advanced G o).
  { rewrite x_update_inside, y_update_inside by assumption. reflexivity. }
  split; [exact E |].
  rewrite E, trail_update. cbv zeta. fold (advanced G o).
  destruct (10 <? _)%nat eqn:El.
  - destruct (trail o) as [| p t]; [discriminate El |].
    cbn [app pop0 tl]. apply last_last.
  - apply last_last.
Qed.

Lemma update_inside_keeps_advanced_position_witness :
  (x (update initial_globals 0 on_right_edge),
   y (update initial_globals 0 on_right_edge)) = (997 + 3 * 1, 0 + 0 * 1).
Proof.
  apply (update_inside_keeps_advanced_position initial_globals 0 on_right_edge).
  - split; discriminate.
  - split; discriminate.
Defined.



(** ** When [draw] raises *)

Lemma draw_fst (G : Globals) (o : SkyObject) : fst (draw G o) = o.
Proof.
  unfold draw. destruct (VIEW_MODE G =? "PLAN")%string; [| reflexivity].
  destruct (pygame_draw_lines _ _ _ _); reflexivity.
Qed.

Lemma draw_plan_ok (G : Globals) (o : SkyObject) :
  VIEW_MODE G = "PLAN"%string -> (2 <= List.length (trail o))%nat ->
  snd (draw G o) =
    Ok [circle (display_color (z o) (base_color o)) (int (x o), int (y o)) 5;
        lines (display_color (z o) (base_color o)) false (trail o) 1;
        _draw_id o (x o) (y o)].
Proof.
  intros Hv Hlen. unfold draw, pygame_draw_lines. rewrite Hv. cbn [String.eqb Ascii.eqb Bool.eqb].
  assert (E : (List.length (trail o) <? 2)%nat = false) by (apply Nat.ltb_ge; lia).
  now rewrite E.
Qed.

Lemma draw_ground_ok (G : Globals) (o : SkyObject) :
  VIEW_MODE G <> "PLAN"%string ->
  snd (draw G o) =
    Ok [circle (display_color (z o) (base_color o))
               (int (ground_x G o), int (inject_Z HEIGHT - z o * 5)) 5;
        _draw_id o (ground_x G o) (inject_Z HEIGHT - z o * 5)].
Proof.
  intros Hv. unfold draw. apply String.eqb_neq in Hv. now rewrite Hv.
Qed.

(** X5. [draw] raises exactly when the view mode is PLAN and the trail has
    fewer than two points; in GROUND mode, and in PLAN mode with a trail of
    two or more points, it completes. *)
Theorem draw_raises_iff :
  forall (G : Globals) (o : SkyObject),
    snd (draw G o) = Raise ValueError <->
    (VIEW_MODE G = "PLAN"%string /\ (List.length (trail o) < 2)%nat).
Proof.
  intros G o. split.
  - intros Hr. destruct (String.eqb_spec (VIEW_MODE G) "PLAN") as [Hv | Hv].
    + split; [exact Hv |].
      destruct (Nat.lt_ge_cases (List.length (trail o)) 2) as [Hl | Hl]; [exact Hl |].
      rewrite (draw_plan_ok G o Hv Hl) in Hr. discriminate Hr.
    + rewrite (draw_ground_ok G o Hv) in Hr. discriminate Hr.
  - intros [Hv Hl]. unfold draw, pygame_draw_lines. rewrite Hv.
    cbn [String.eqb Ascii.eqb Bool.eqb].
    apply Nat.ltb_lt in Hl. now rewrite Hl.
Qed.

(** ** The frame loop *)

Lemma trail_update_two (G : Globals) (dz : Q) (o : SkyObject) :
  trail o <> [] -> (2 <= List.length (trail (update G dz o)))%nat.
Proof.
  intros Hne. rewrite trail_update. cbv zeta.
  destruct (trail o) as [| p t]; [contradiction |].
  destruct (10 <? _)%nat eqn:E.
  - apply Nat.ltb_lt in E. unfold pop0. rewrite length_tl. lia.
  - cbn [app List.length]. rewrite length_app. cbn. lia.
Qed.

(** X6. Outside PLAN mode the frame loop never raises: it returns every
    object updated, in order, and issues exactly two calls (marker and id
    label) per object, whatever the trails are. *)
Theorem frame_ground_never_raises :
  forall (G : Globals) (objects : list SkyObject) (dzs : list Q),
    VIEW_MODE G <> "PLAN"%string ->
    exists calls,
      update_and_draw_all G dzs objects = Ok (update_all G dzs objects, calls) /\
      List.length calls = (2 * List.length objects)%nat.
Proof.
  intros G objects. induction objects as [| o rest IH]; intros dzs Hv.
  - exists []. split; reflexivity.
  - destruct (IH (tl dzs) Hv) as (calls & Hrun & Hlen).
    cbn [update_and_draw_all update_all].
    pose proof (draw_fst G (update G (hd 0 dzs) o)) as Hf.
    pose proof (draw_ground_ok G (update G (hd 0 dzs) o) Hv) as Hs.
    destruct (draw G (update G (hd 0 dzs) o)) as [o' res].
    cbn in Hf, Hs. subst o' res. rewrite Hrun.
    eexists. split; [reflexivity |]. cbn [app List.length]. lia.
Qed.

Lemma frame_ground_never_raises_witness :
  exists calls,
    update_and_draw_all (mkGlobals "GROUND" "WEST" 1) [0; 0]
      [near_right_bottom; near_left_top]
    = Ok (update_all (mkGlobals "GROUND" "WEST" 1) [0; 0]
            [near_right_bottom; near_left_top], calls) /\
    List.length calls = 4%nat.
Proof.
  apply (frame_ground_never_raises (mkGlobals "GROUND" "WEST" 1)
           [near_right_bottom; near_left_top] [0; 0]).
  discriminate.
Defined.

(** X7. In PLAN mode the frame loop completes as soon as every object
    already has a point in its trail (so from the second frame on): it
    returns every object updated, in order, and issues three calls (marker,
    trail polyline, id label) per object. *)
Theorem frame_plan_completes_after_first_update :
  forall (G : Globals) (objects : list SkyObject) (dzs : list Q),
    VIEW_MODE G = "PLAN"%string ->
    Forall (fun o => trail o <> []) objects ->
    exists calls,
      update_and_draw_all G dzs objects = Ok (update_all G dzs objects, calls) /\
      List.length calls = (3 * List.length objects)%nat.
Proof.
  intros G objects. induction objects as [| o rest IH]; intros dzs Hv Hall.
  - exists []. split; reflexivity.
  - inversion Hall as [| ? ? Ho Hrest]; subst.
    destruct (IH (tl dzs) Hv Hrest) as (calls & Hrun & Hlen).
    cbn [update_and_draw_all update_all].
    pose proof (draw_fst G (update G (hd 0 dzs) o)) as Hf.
    pose proof (draw_plan_ok G (update G (hd 0 dzs) o) Hv
                  (trail_update_two G (hd 0 dzs) o Ho)) as Hs.
    destruct (draw G (update G (hd 0 dzs) o)) as [o' res].
    cbn in Hf, Hs. subst o' res. rewrite Hrun.
    eexists. split; [reflexivity |]. cbn [app List.length]. lia.
Qed.

Lemma frame_plan_completes_after_first_update_witness :
  exists calls,
    update_and_draw_all initial_globals [0]
      [update initial_globals 0 near_right_bottom]
    = Ok (update_all initial_globals [0]
            [update initial_globals 0 near_right_bottom], calls) /\
    List.length calls = 3%nat.
Proof.
  apply (frame_plan_completes_after_first_update initial_globals
           [update initial_globals 0 near_right_bottom] [0]).
  - reflexivity.
  - constructor; [discriminate | constructor].
Defined.

(** ** Markers stay on the canvas *)

Lemma int_inject_Z (n : Z) : int (inject_Z n) = n.
Proof. unfold int. cbn. apply Z.quot_1_r. Qed.

Lemma int_between (lo hi : Z) (q : Q) :
  inject_Z lo <= q <= inject_Z hi -> (lo <= int q <= hi)%Z.
Proof.
  intros [Hlo Hhi]. split.
  - rewrite <- (int_inject_Z lo). now apply int_mono.
  - rewrite <- (int_inject_Z hi). now apply int_mono.
Qed.

Lemma ground_x_range (G : Globals) (o : SkyObject) :
  0 <= x o <= inject_Z WIDTH -> 0 <= ground_x G o <= inject_Z WIDTH.
Proof.
  intros [Hlo Hhi]. unfold ground_x.
  destruct (DIRECTION G =? "EAST")%string; split; lra.
Qed.

(** X8. In GROUND mode the marker of an object that has just been updated
    is drawn on the canvas, for either direction: its centre has
    [0 <= cx <= WIDTH] and [HEIGHT - 500 <= cy <= HEIGHT]. *)
Theorem ground_marker_on_canvas :
  forall (G G' : Globals) (dz : Q) (o : SkyObject),
    VIEW_MODE G' <> "PLAN"%string ->
    exists c cx cy label,
      snd (draw G' (update G dz o)) = Ok [circle c (cx, cy) 5; label] /\
      (0 <= cx <= WIDTH)%Z /\ (HEIGHT - 500 <= cy <= HEIGHT)%Z.
Proof.
  intros G G' dz o Hv. set (o' := update G dz o).
  rewrite (draw_ground_ok G' o' Hv).
  do 4 eexists. split; [reflexivity |]. split.
  - apply int_between. apply ground_x_range.
    subst o'. rewrite x_update. apply snap_range. discriminate.
  - apply int_between.
    assert (Hz : 0 <= z o' <= 100)
      by (subst o'; rewrite z_update; apply depth_clamped).
    unfold HEIGHT. change (inject_Z (700 - 500)) with 200.
    change (inject_Z 700) with 700. split; lra.
Qed.

Lemma ground_marker_on_canvas_witness :
  exists c cx cy label,
    snd (draw (mkGlobals "GROUND" "WEST" 1) (update initial_globals 0 near_left_top))
      = Ok [circle c (cx, cy) 5; label] /\
    (0 <= cx <= WIDTH)%Z /\ (HEIGHT - 500 <= cy <= HEIGHT)%Z.
Proof.
  apply (ground_marker_on_canvas initial_globals (mkGlobals "GROUND" "WEST" 1)
           0 near_left_top).
  discriminate.
Defined.

(** X9. In PLAN mode the marker of an object that has just been updated
    (and had a point in its trail before) is drawn on the canvas, and the
    polyline receives the whole trail of the object. *)
Theorem plan_marker_on_canvas :
  forall (G G' : Globals) (dz : Q) (o : SkyObject),
    VIEW_MODE G' = "PLAN"%string -> trail o <> [] ->
    exists c cx cy label,
      snd (draw G' (update G dz o))
        = Ok [circle c (cx, cy) 5; lines c false (trail (update G dz o)) 1; label] /\
      (0 <= cx <= WIDTH)%Z /\ (0 <= cy <= HEIGHT)%Z.
Proof.
  intros G G' dz o Hv Hne. set (o' := update G dz o).
  rewrite (draw_plan_ok G' o' Hv (trail_update_two G dz o Hne)).
  do 4 eexists. split; [reflexivity |]. split.
  - apply int_between. subst o'. rewrite x_update. apply snap_range. discriminate.
  - apply int_between. subst o'. rewrite y_update. apply snap_range. discriminate.
Qed.

Lemma plan_marker_on_canvas_witness :
  exists c cx cy label,
    snd (draw initial_globals
           (update initial_globals 0 (update initial_globals 0 near_right_bottom)))
      = Ok [circle c (cx, cy) 5;
            lines c false
              (trail (update initial_globals 0
                        (update initial_globals 0 near_right_bottom))) 1;
            label] /\
    (0 <= cx <= WIDTH)%Z /\ (0 <= cy <= HEIGHT)%Z.
Proof.
  apply (plan_marker_on_canvas initial_globals initial_globals 0
           (update initial_globals 0 near_right_bottom)).
  - reflexivity.
  - discriminate.
Defined.

(** ** The displayed colour *)

Lemma int_proper (p q : Q) : p == q -> int p = int q.
Proof.
  intros E. apply Z.le_antisymm; apply int_mono; rewrite E; apply Qle_refl.
Qed.

Lemma factor_le_1 (zq : Q) : 0 <= zq -> 1 - zq / 100 <= 1.
Proof.
  intros H. unfold Qdiv.
  setoid_replace (/ 100) with (1 # 100) by reflexivity. lra.
Qed.

Lemma channel_bounds (f : Q) (c : Z) :
  0 <= f <= 1 -> (0 <= c <= 255)%Z ->
  (c <= channel f c <= Z.min 255 (c + 80))%Z.
Proof.
  intros [Hf0 Hf1] Hc. unfold channel. split.
  - apply Z.min_glb; [lia |].
    rewrite <- (int_inject_Z c) at 1. apply int_mono. lra.
  - apply Z.min_le_compat_l.
    rewrite <- (int_inject_Z (c + 80)). apply int_mono.
    rewrite inject_Z_plus. change (inject_Z 80) with 80. lra.
Qed.

Lemma channel_factor_0 (f : Q) (c : Z) :
  f == 0 -> (c <= 255)%Z -> channel f c = c.
Proof.
  intros Hf Hc. unfold channel.
  rewrite (int_proper _ (inject_Z c)) by (rewrite Hf; ring).
  rewrite int_inject_Z. lia.
Qed.

Lemma channel_factor_1 (f : Q) (c : Z) :
  f == 1 -> channel f c = Z.min 255 (c + 80).
Proof.
  intros Hf. unfold channel.
  rewrite (int_proper _ (inject_Z (c + 80))), int_inject_Z; [reflexivity |].
  rewrite Hf, inject_Z_plus. change (inject_Z 80) with 80. ring.
Qed.

(** X10. For a base colour with channels in 0..255 and a depth in [0, 100],
    every displayed channel lies between the base channel and the base
    channel plus 80 capped at 255; at depth 100 the displayed colour is the
    base colour, at depth 0 it is the base colour plus 80 per channel,
    capped at 255. *)
Theorem display_color_bounds :
  forall (r g b : Z) (zq : Q),
    valid_color (r, g, b) -> 0 <= zq <= 100 ->
    let brightest := (Z.min 255 (r + 80), Z.min 255 (g + 80), Z.min 255 (b + 80)) in
    color_le (r, g, b) (display_color zq (r, g, b)) /\
    color_le (display_color zq (r, g, b)) brightest /\
    (zq == 100 -> display_color zq (r, g, b) = (r, g, b)) /\
    (zq == 0 -> display_color zq (r, g, b) = brightest).
Proof.
  intros r g b zq (Hr & Hg & Hb) [H0 H100] brightest.
  unfold valid_channel in Hr, Hg, Hb.
  assert (Hf : 0 <= 1 - zq / 100 <= 1)
    by (split; [now apply factor_nonneg | now apply factor_le_1]).
  pose proof (channel_bounds _ r Hf Hr) as Br.
  pose proof (channel_bounds _ g Hf Hg) as Bg.
  pose proof (channel_bounds _ b Hf Hb) as Bb.
  subst brightest. unfold display_color, color_le.
  split; [lia |]. split; [lia |]. split; intros Hz.
  - assert (E : 1 - zq / 100 == 0) by (rewrite Hz; reflexivity).
    rewrite !(channel_factor_0 _ _ E) by lia. reflexivity.
  - assert (E : 1 - zq / 100 == 1) by (rewrite Hz; reflexivity).
    rewrite !(channel_factor_1 _ _ E). reflexivity.
Qed.

Lemma display_color_bounds_witness :
  display_color 100 (150, 0, 150)%Z = (150, 0, 150)%Z /\
  display_color 0 (255, 255, 150)%Z = (255, 255, 230)%Z.
Proof.
  split.
  - apply (display_color_bounds 150 0 150 100).
    + cbn. unfold valid_channel. lia.
    + split; discriminate.
    + reflexivity.
  - apply (display_color_bounds 255 255 150 0).
    + cbn. unfold valid_channel. lia.
    + split; discriminate.
    + reflexivity.
Defined.

Lemma base_color_update (G : Globals) (dz : Q) (o : SkyObject) :
  base_color (update G dz o) = base_color o.
Proof. destruct o. run_update; reflexivity. Qed.

Lemma base_color_updates (calls : list (Globals * Q)) :
  forall o, base_color (updates calls o) = base_color o.
Proof.
  induction calls as [| c calls IH]; intros o; [reflexivity |].
  cbn [updates fold_left].
  change (fold_left (fun o c => update (fst c) (snd c) o) calls
            (update (fst c) (snd c) o))
    with (updates calls (update (fst c) (snd c) o)).
  now rewrite IH, base_color_update.
Qed.

(** X11. The colour [draw] hands to pygame is a valid colour in every frame:
    for any constructed object, of any type, after any non-empty run of
    [update] calls, every channel of the displayed colour is in 0..255. *)
Theorem drawn_color_always_valid :
  forall (oid : nat) (ot : otype) (r : init_draws)
         (calls : list (Globals * Q)) (c : Globals * Q),
    let o := updates (calls ++ [c]) (SkyObject_init oid ot r) in
    valid_color (display_color (z o) (base_color o)).
Proof.
  intros oid ot r calls c o.
  assert (Hz : 0 <= z o <= 100)
    by (subst o; rewrite updates_snoc, z_update; apply depth_clamped).
  assert (Hb : base_color o = OBJECT_TYPES_color ot)
    by (subst o; now rewrite base_color_updates).
  rewrite Hb. pose proof (catalogue_colors_valid ot) as Hv.
  destruct (OBJECT_TYPES_color ot) as [[cr cg] cb].
  destruct Hv as (Hr & Hg & Hbb). unfold valid_channel in *.
  assert (Hf : 0 <= 1 - z o / 100) by (apply factor_nonneg, Hz).
  unfold display_color, valid_color.
  repeat split; apply channel_valid; try lia; exact Hf.
Qed.

(** ** The controller *)

Lemma toggle_view_ok (v : string) :
  toggle_view v = "PLAN"%string \/ toggle_view v = "GROUND"%string.
Proof. unfold toggle_view. destruct (v =? "PLAN")%string; auto. Qed.

Lemma toggle_direction_ok (d : string) :
  toggle_direction d = "EAST"%string \/ toggle_direction d = "WEST"%string.
Proof. unfold toggle_direction. destruct (d =? "EAST")%string; auto. Qed.

Lemma handle_event_globals_ok (st : loop_state) (ev : event) :
  globals_ok (globals st) -> globals_ok (globals (handle_event st ev)).
Proof.
  intros (Hv & Hd & Hs). destruct ev as [| [mx my] | | [mx my] |]; cbn [handle_event].
  - repeat split; assumption || apply Hs.
  - destruct (collidepoint view_btn mx my).
    { repeat split; cbn; try assumption; try apply Hs. apply toggle_view_ok. }
    destruct (collidepoint dir_btn mx my).
    { repeat split; cbn; try assumption; try apply Hs. apply toggle_direction_ok. }
    destruct (_ && _)%bool; repeat split; cbn; try assumption; apply Hs.
  - repeat split; assumption || apply Hs.
  - destruct (dragging_slider st); [| repeat split; assumption || apply Hs].
    repeat split; cbn; try assumption; apply slider_value_range.
  - repeat split; assumption || apply Hs.
Qed.

(** X12. Whatever events arrive, in whatever order, the three globals stay
    within their ranges: the view mode is PLAN or GROUND, the direction is
    EAST or WEST and the speed multiplier lies in [0.5, 3]. *)
Theorem globals_stay_in_range :
  forall evs : list event,
    globals_ok (globals (handle_events initial_loop_state evs)).
Proof.
  intros evs. unfold handle_events.
  assert (H0 : globals_ok (globals initial_loop_state)).
  { repeat split; cbn; auto; discriminate. }
  revert H0. generalize initial_loop_state.
  induction evs as [| ev evs IH]; intros st Hst; [exact Hst |].
  cbn [fold_left]. apply IH, handle_event_globals_ok, Hst.
Qed.

Lemma band_outside_view_btn (mx my : Z) :
  in_slider_band mx my = true -> collidepoint view_btn mx my = false.
Proof.
  unfold in_slider_band, collidepoint, view_btn, SLIDER_X. cbn [left top w h].
  rewrite !andb_true_iff, !Z.leb_le. intros [[[Hx _] _] _].
  assert (E : (mx <? 20 + 150)%Z = false) by (apply Z.ltb_ge; lia).
  rewrite E. now rewrite andb_false_r.
Qed.

Lemma band_outside_dir_btn (mx my : Z) :
  in_slider_band mx my = true -> collidepoint dir_btn mx my = false.
Proof.
  unfold in_slider_band, collidepoint, dir_btn, SLIDER_X. cbn [left top w h].
  rewrite !andb_true_iff, !Z.leb_le. intros [[[Hx _] _] _].
  assert (E : (mx <? 20 + 150)%Z = false) by (apply Z.ltb_ge; lia).
  rewrite E. now rewrite andb_false_r.
Qed.

Lemma view_btn_outside_dir_btn (mx my : Z) :
  collidepoint view_btn mx my = true -> collidepoint dir_btn mx my = false.
Proof.
  unfold collidepoint, view_btn, dir_btn, HEIGHT, BUTTON_HEIGHT. cbn [left top w h].
  rewrite !andb_true_iff, !Z.leb_le, !Z.ltb_lt. intros [[_ Hy] _].
  assert (E : (my <? 700 - 2 * 50 - 40 + 50)%Z = false) by (apply Z.ltb_ge; lia).
  rewrite E. now rewrite andb_false_r.
Qed.

(** X13. The three hit regions do not overlap, so a button press does
    exactly one thing: inside the slider band it starts a drag and changes
    no global; inside the view button it changes only the view mode; inside
    the direction button it changes only the direction; anywhere else it
    changes nothing. *)
Theorem button_down_effect :
  forall (st : loop_state) (mx my : Z),
    let st' := handle_event st (MOUSEBUTTONDOWN (mx, my)) in
    let G := globals st in
    (in_slider_band mx my = true -> st' = mkLoop G (running st) true) /\
    (collidepoint view_btn mx my = true ->
     st' = mkLoop (mkGlobals (toggle_view (VIEW_MODE G)) (DIRECTION G)
                             (SPEED_MULTIPLIER G))
                  (running st) (dragging_slider st)) /\
    (collidepoint dir_btn mx my = true ->
     st' = mkLoop (mkGlobals (VIEW_MODE G) (toggle_direction (DIRECTION G))
                             (SPEED_MULTIPLIER G))
                  (running st) (dragging_slider st)) /\
    (in_slider_band mx my = false -> collidepoint view_btn mx my = false ->
     collidepoint dir_btn mx my = false -> st' = st).
Proof.
  intros st mx my st' G. subst st' G. cbn [handle_event].
  fold (in_slider_band mx my). repeat split.
  - intros Hb. rewrite (band_outside_view_btn _ _ Hb), (band_outside_dir_btn _ _ Hb), Hb.
    reflexivity.
  - intros Hv. now rewrite Hv.
  - intros Hd. destruct (collidepoint view_btn mx my) eqn:Hv.
    + rewrite (view_btn_outside_dir_btn _ _ Hv) in Hd. discriminate Hd.
    + now rewrite Hd.
  - intros Hb Hv Hd. now rewrite Hv, Hd, Hb.
Qed.

Lemma button_down_effect_witness :
  handle_event initial_loop_state (MOUSEBUTTONDOWN (800, 650)%Z)
    = mkLoop initial_globals true true /\
  handle_event initial_loop_state (MOUSEBUTTONDOWN (169, 679)%Z)
    = mkLoop (mkGlobals "GROUND" "EAST" 1) true false /\
  handle_event initial_loop_state (MOUSEBUTTONDOWN (20, 609)%Z)
    = mkLoop (mkGlobals "PLAN" "WEST" 1) true false /\
  handle_event initial_loop_state (MOUSEBUTTONDOWN (170, 630)%Z)
    = initial_loop_state.
Proof.
  split; [| split; [| split]].
  - apply (button_down_effect initial_loop_state 800 650). reflexivity.
  - apply (button_down_effect initial_loop_state 169 679). reflexivity.
  - apply (button_down_effect initial_loop_state 20 609). reflexivity.
  - apply (button_down_effect initial_loop_state 170 630); reflexivity.
Defined.

Lemma handle_motion_idle (st : loop_state) (p : Z * Z) :
  dragging_slider st = false -> handle_event st (MOUSEMOTION p) = st.
Proof. intros H. destruct p as [mx my]. cbn [handle_event]. now rewrite H. Qed.

Lemma handle_motions_idle (ps : list (Z * Z)) :
  forall st, dragging_slider st = false ->
             handle_events st (map MOUSEMOTION ps) = st.
Proof.
  induction ps as [| p ps IH]; intros st H; [reflexivity |].
  cbn [map handle_events fold_left]. rewrite handle_motion_idle by exact H.
  now apply IH.
Qed.

(** X14. Pointer motion without a grab is ignored: while no drag is active
    any run of motion events leaves the whole loop state as it is, and after
    a button release every following motion is ignored, so the speed
    multiplier keeps the value of the last motion of the drag. *)
Theorem motion_without_grab_is_ignored :
  forall (st : loop_state) (ps : list (Z * Z)),
    (dragging_slider st = false -> handle_events st (map MOUSEMOTION ps) = st) /\
    handle_events st (MOUSEBUTTONUP :: map MOUSEMOTION ps)
      = mkLoop (globals st) (running st) false.
Proof.
  intros st ps. split.
  - apply handle_motions_idle.
  - cbn [handle_events fold_left handle_event].
    now apply (handle_motions_idle ps (mkLoop (globals st) (running st) false)).
Qed.

Lemma motion_without_grab_is_ignored_witness :
  handle_events initial_loop_state (map MOUSEMOTION [(300, 620); (900, 10)]%Z)
    = initial_loop_state.
Proof.
  apply (proj1 (motion_without_grab_is_ignored initial_loop_state
                  [(300, 620); (900, 10)]%Z)).
  reflexivity.
Defined.

(** X15. Both toggles are involutions on the states that occur: with the
    view mode PLAN or GROUND, two presses anywhere inside the view button
    give back the whole loop state, and with the direction EAST or WEST so do
    two presses anywhere inside the direction button.  A single press on the
    view button always changes the view mode. *)
Theorem toggles_are_involutions :
  forall (st : loop_state) (p1 p2 : Z * Z),
    globals_ok (globals st) ->
    (collidepoint view_btn (fst p1) (snd p1) = true ->
     collidepoint view_btn (fst p2) (snd p2) = true ->
     handle_events st [MOUSEBUTTONDOWN p1; MOUSEBUTTONDOWN p2] = st /\
     VIEW_MODE (globals (handle_event st (MOUSEBUTTONDOWN p1)))
       <> VIEW_MODE (globals st)) /\
    (collidepoint dir_btn (fst p1) (snd p1) = true ->
     collidepoint dir_btn (fst p2) (snd p2) = true ->
     handle_events st [MOUSEBUTTONDOWN p1; MOUSEBUTTONDOWN p2] = st).
Proof.
  intros [[v d s] run drag] [x1 y1] [x2 y2] (Hv & Hd & _).
  cbn [globals VIEW_MODE DIRECTION fst snd] in *. split.
  - intros H1 H2. cbn [handle_events fold_left handle_event globals
                        VIEW_MODE DIRECTION SPEED_MULTIPLIER running dragging_slider].
    rewrite H1. cbn [globals VIEW_MODE DIRECTION SPEED_MULTIPLIER running
                     dragging_slider]. rewrite H2.
    destruct Hv as [-> | ->]; split; (reflexivity || discriminate).
  - intros H1 H2. cbn [handle_events fold_left handle_event globals
                        VIEW_MODE DIRECTION SPEED_MULTIPLIER running dragging_slider].
    assert (V1 : collidepoint view_btn x1 y1 = false).
    { destruct (collidepoint view_btn x1 y1) eqn:E; [| reflexivity].
      rewrite (view_btn_outside_dir_btn _ _ E) in H1. discriminate H1. }
    assert (V2 : collidepoint view_btn x2 y2 = false).
    { destruct (collidepoint view_btn x2 y2) eqn:E; [| reflexivity].
      rewrite (view_btn_outside_dir_btn _ _ E) in H2. discriminate H2. }
    rewrite V1, H1. cbn [globals VIEW_MODE DIRECTION SPEED_MULTIPLIER running
                         dragging_slider]. rewrite V2, H2.
    destruct Hd as [-> | ->]; reflexivity.
Qed.

Lemma toggles_are_involutions_witness :
  handle_events initial_loop_state
    [MOUSEBUTTONDOWN (20, 630)%Z; MOUSEBUTTONDOWN (169, 679)%Z] = initial_loop_state /\
  handle_events initial_loop_state
    [MOUSEBUTTONDOWN (20, 560)%Z; MOUSEBUTTONDOWN (169, 609)%Z] = initial_loop_state.
Proof.
  assert (H0 : globals_ok (globals initial_loop_state)).
  { repeat split; cbn; auto; discriminate. }
  split.
  - apply (proj1 (toggles_are_involutions initial_loop_state
                    (20, 630)%Z (169, 679)%Z H0)); reflexivity.
  - apply (proj2 (toggles_are_involutions initial_loop_state
                    (20, 560)%Z (169, 609)%Z H0)); reflexivity.
Defined.

(** X16. Only a QUIT event clears [running], and nothing sets it again:
    after any run of events the flag is its old value, and false as soon as
    the run contained a QUIT. *)
Theorem running_until_quit :
  forall (evs : list event) (st : loop_state),
    running (handle_events st evs) = running st && negb (existsb is_quit evs).
Proof.
  induction evs as [| ev evs IH]; intros st.
  - cbn. now rewrite andb_true_r.
  - cbn [handle_events fold_left existsb].
    change (fold_left handle_event evs (handle_event st ev))
      with (handle_events (handle_event st ev) evs).
    rewrite IH. destruct ev as [| [mx my] | | [mx my] |]; cbn [handle_event is_quit orb].
    + cbn. now rewrite andb_false_r.
    + destruct (collidepoint view_btn mx my); [reflexivity |].
      destruct (collidepoint dir_btn mx my); [reflexivity |].
      destruct (_ && _ && _ && _)%bool; reflexivity.
    + reflexivity.
    + destruct (dragging_slider st); reflexivity.
    + reflexivity.
Qed.

(** ** The slider knob *)

Lemma knob_offset (v : Q) :
  ((v - (1 # 2)) / (5 # 2)) * inject_Z SLIDER_W == (v - (1 # 2)) * 240.
Proof.
  unfold Qdiv. setoid_replace (/ (5 # 2)) with (2 # 5) by reflexivity.
  change (inject_Z SLIDER_W) with 600. ring.
Qed.

Lemma knob_x_mono (v1 v2 : Q) : v1 <= v2 -> (knob_x v1 <= knob_x v2)%Z.
Proof.
  intros H. unfold knob_x. apply Z.add_le_mono_l, int_mono.
  rewrite !knob_offset. lra.
Qed.

Lemma knob_x_proper (v1 v2 : Q) : v1 == v2 -> knob_x v1 = knob_x v2.
Proof.
  intros E. apply Z.le_antisymm; apply knob_x_mono; rewrite E; apply Qle_refl.
Qed.

Lemma knob_x_on_track (v : Q) :
  1 # 2 <= v <= 3 -> (SLIDER_X <= knob_x v <= SLIDER_X + SLIDER_W)%Z.
Proof.
  intros [Hlo Hhi]. split.
  - change SLIDER_X with (knob_x (1 # 2)) at 1. now apply knob_x_mono.
  - change (SLIDER_X + SLIDER_W)%Z with (knob_x 3). now apply knob_x_mono.
Qed.

Lemma ratio_mono (a b : Z) :
  (a <= b)%Z ->
  inject_Z (a - SLIDER_X) / inject_Z SLIDER_W
    <= inject_Z (b - SLIDER_X) / inject_Z SLIDER_W.
Proof.
  intros H. unfold Qdiv. change (/ inject_Z SLIDER_W) with (1 # 600).
  apply Qmult_le_compat_r; [| discriminate].
  rewrite <- Zle_Qle. lia.
Qed.

Lemma slider_value_mono (a b : Z) : (a <= b)%Z -> slider_value a <= slider_value b.
Proof.
  intros H. unfold slider_value. cbv zeta.
  pose proof (ratio_mono a b H) as Hr.
  assert (Hc : Qmax 0 (Qmin 1 (inject_Z (a - SLIDER_X) / inject_Z SLIDER_W))
               <= Qmax 0 (Qmin 1 (inject_Z (b - SLIDER_X) / inject_Z SLIDER_W)))
    by (apply Q.max_le_compat_l, Q.min_le_compat_l, Hr).
  lra.
Qed.

(** X17. The knob follows the pointer of a drag: the knob position computed
    by [draw_slider] from the value a drag to [mx] sets is always on the
    track, it never moves left when the pointer moves right, it sits at the
    left end for every pointer at or left of the track and at the right end
    for every pointer at or right of it. *)
Theorem knob_follows_pointer :
  forall mx : Z,
    (SLIDER_X <= knob_x (slider_value mx) <= SLIDER_X + SLIDER_W)%Z /\
    (forall mx' : Z, (mx <= mx')%Z ->
                     (knob_x (slider_value mx) <= knob_x (slider_value mx'))%Z) /\
    ((mx <= SLIDER_X)%Z -> knob_x (slider_value mx) = SLIDER_X) /\
    ((SLIDER_X + SLIDER_W <= mx)%Z ->
     knob_x (slider_value mx) = (SLIDER_X + SLIDER_W)%Z).
Proof.
  intros mx. split; [apply knob_x_on_track, slider_value_range |].
  split; [intros mx' H; apply knob_x_mono, slider_value_mono, H |].
  split; intros H.
  - apply Z.le_antisymm; [| apply knob_x_on_track, slider_value_range].
    transitivity (knob_x (slider_value SLIDER_X));
      [apply knob_x_mono, slider_value_mono, H | apply Z.eq_le_incl; reflexivity].
  - apply Z.le_antisymm; [apply knob_x_on_track, slider_value_range |].
    transitivity (knob_x (slider_value (SLIDER_X + SLIDER_W)));
      [apply Z.eq_le_incl; reflexivity | apply knob_x_mono, slider_value_mono, H].
Qed.

Lemma knob_follows_pointer_witness :
  knob_x (slider_value (-50)) = SLIDER_X /\
  knob_x (slider_value 5000) = (SLIDER_X + SLIDER_W)%Z.
Proof.
  split.
  - apply (knob_follows_pointer (-50)). vm_compute. discriminate.
  - apply (knob_follows_pointer 5000). vm_compute. discriminate.
Defined.

Lemma handle_events_globals_ok (evs : list event) :
  forall st, globals_ok (globals st) ->
             globals_ok (globals (handle_events st evs)).
Proof.
  induction evs as [| ev evs IH]; intros st Hst; [exact Hst |].
  cbn [handle_events fold_left]. apply IH, handle_event_globals_ok, Hst.
Qed.

(** X18. Whatever events have been handled since the start of [main],
    [draw_slider] called with the current speed multiplier draws the track
    rectangle and a knob whose centre lies on the track. *)
Theorem knob_drawn_on_track :
  forall evs : list event,
    let v := SPEED_MULTIPLIER (globals (handle_events initial_loop_state evs)) in
    exists kx,
      draw_slider v =
        [ui_rect (100, 100, 100)%Z (mkRect 200 620 600 20) None;
         ui_circle (200, 200, 200)%Z (kx, 630)%Z 12] /\
      (200 <= kx <= 800)%Z.
Proof.
  intros evs v. exists (knob_x v). split; [reflexivity |].
  apply (knob_x_on_track v).
  assert (H0 : globals_ok (globals initial_loop_state)).
  { repeat split; cbn; auto; discriminate. }
  apply (handle_events_globals_ok evs initial_loop_state H0).
Qed.

(** ** More on the spawn loop *)

Lemma loop_provenance (max_objects max_per_type : nat) (rnd : nat -> spawn_draw)
    (P : SkyObject -> Prop) :
  (forall oid i, P (SkyObject_init oid (draw_choice (rnd i)) (draw_init (rnd i)))) ->
  forall fuel i objs oid counts res,
    Forall P objs ->
    spawn_loop max_objects max_per_type rnd fuel i objs oid counts = Some res ->
    Forall P res.
Proof.
  intros HP fuel. induction fuel as [| fuel IH]; intros i objs oid counts res Hall;
    cbn [spawn_loop]; destruct (List.length objs <? max_objects)%nat.
  - discriminate.
  - now intros [= <-].
  - destruct (counts (draw_choice (rnd i)) <? max_per_type)%nat.
    + apply IH. apply Forall_app. split; [exact Hall |].
      constructor; [apply HP | constructor].
    + now apply IH.
  - now intros [= <-].
Qed.

(** X19. Every object [spawn_objects] returns is exactly what the
    constructor built in some iteration of the loop, for the key drawn in
    that iteration: its type is the drawn key, its base colour is the
    catalogue colour of that type and its trail is empty. *)
Theorem spawned_objects_are_fresh :
  forall (max_objects max_per_type : nat) (rnd : nat -> spawn_draw)
         (fuel : nat) (objs : list SkyObject),
    spawn_objects_cfg max_objects max_per_type rnd fuel = Some objs ->
    Forall (fun o =>
              (exists i, draw_choice (rnd i) = otype_of o /\
                         o = SkyObject_init (id o) (otype_of o) (draw_init (rnd i))) /\
              base_color o = OBJECT_TYPES_color (otype_of o) /\
              trail o = []) objs.
Proof.
  intros max_objects max_per_type rnd fuel objs Hrun.
  refine (loop_provenance max_objects max_per_type rnd _ _ fuel 0 [] 1%nat
            counts_init objs (Forall_nil _) Hrun).
  intros oid i. split; [| split; reflexivity].
  exists i. split; reflexivity.
Qed.

Lemma spawned_objects_are_fresh_witness :
  exists objs,
    spawn_objects round_robin 7 = Some objs /\
    Forall (fun o =>
              (exists i, draw_choice (round_robin i) = otype_of o /\
                         o = SkyObject_init (id o) (otype_of o)
                               (draw_init (round_robin i))) /\
              base_color o = OBJECT_TYPES_color (otype_of o) /\
              trail o = []) objs.
Proof.
  eexists. split; [reflexivity |].
  apply (spawned_objects_are_fresh MAX_OBJECTS MAX_PER_TYPE round_robin 7).
  reflexivity.
Defined.

(** X20. A request that is exactly tight leaves no choice: when
    [max_objects] equals [max_per_type] times the number of types, every
    list the loop returns holds exactly [max_per_type] objects of each
    type. *)
Theorem spawn_tight_request_fills_every_type :
  forall (max_per_type : nat) (rnd : nat -> spawn_draw)
         (fuel : nat) (objs : list SkyObject),
    spawn_objects_cfg (max_per_type * List.length OBJECT_TYPES_keys) max_per_type
                      rnd fuel = Some objs ->
    forall t, count_type t objs = max_per_type.
Proof.
  intros cap rnd fuel objs Hrun.
  destruct (loop_partial _ cap rnd fuel 0 [] 1%nat counts_init objs
              (inv_initial cap) (Nat.le_0_l _) Hrun) as (Hlen & Hcap & _).
  rewrite length_by_type in Hlen. cbn [List.length OBJECT_TYPES_keys] in Hlen.
  pose proof (Hcap Plane). pose proof (Hcap Helicopter).
  pose proof (Hcap Satellite). pose proof (Hcap Meteor). pose proof (Hcap Rare).
  intros t. destruct t; lia.
Qed.

Lemma spawn_tight_request_fills_every_type_witness :
  exists objs,
    spawn_objects_cfg 10 2 round_robin 10 = Some objs /\
    forall t, count_type t objs = 2%nat.
Proof.
  eexists. split; [reflexivity |].
  apply (spawn_tight_request_fills_every_type 2 round_robin 10).
  reflexivity.
Defined.
